(** * A shallow embedding of the todo application (src/App.tsx)

    The React component [App] keeps four pieces of state ([isDark],
    [todos], [input], [filter]) and talks to [AsyncStorage] under the keys
    ["@todos"] and ["@theme"].  The development below embeds

    - JavaScript strings as sequences of UTF-16 code units,
    - [String.prototype.trim], [JSON.stringify] on a [Todo[]] and
      [JSON.parse], following ECMA-262,
    - [AsyncStorage] as a finite map with fallible reads and writes,
    - the event handlers of [App] in a small state and exception monad,

    and settles the properties of the task-list engine against it. *)

From Stdlib Require Import NArith List Bool Ascii String DecimalString DecimalN.
From stdpp Require Import gmap strings list fin_maps.

Local Open Scope N_scope.

(** ** JavaScript strings *)

(** A JavaScript string is a sequence of 16-bit code units. *)
Abbreviation jsstring := (list N).

Module JsString.

(** The code units of an ASCII literal of the source. *)
Definition lit (s : string) : jsstring :=
  List.map N_of_ascii (list_ascii_of_string s).

(** [WhiteSpace] and [LineTerminator] code points of ECMA-262, the ones
    [String.prototype.trim] strips. *)
Definition is_space (c : N) : bool :=
  ((9 <=? c) && (c <=? 13)) || (c =? 32) || (c =? 160) || (c =? 5760)
  || ((8192 <=? c) && (c <=? 8202)) || (c =? 8232) || (c =? 8233)
  || (c =? 8239) || (c =? 8287) || (c =? 12288) || (c =? 65279).

Fixpoint trimStart (s : jsstring) : jsstring :=
  match s with
  | c :: r => if is_space c then trimStart r else s
  | [] => []
  end.

Definition trimEnd (s : jsstring) : jsstring := rev (trimStart (rev s)).

Definition trim (s : jsstring) : jsstring := trimEnd (trimStart s).

(** Truthiness of a string: only the empty string is falsy. *)
Definition truthy (s : jsstring) : bool :=
  match s with [] => false | _ :: _ => true end.

(** [Number.prototype.toString] on a non-negative integer (the value of
    [Date.now()]): its decimal digits. *)
Definition of_number (n : N) : jsstring :=
  lit (NilEmpty.string_of_uint (N.to_uint n)).

End JsString.

Abbreviation js := JsString.lit.

(** ** JSON *)

Module Json.

(** The values [JSON.parse] builds.  A number keeps its lexeme (no claim
    depends on its numeric value), an object keeps its members in the
    order of the text. *)
#[warnings="-register-all"]
Inductive json : Type :=
| JNull
| JBool (b : bool)
| JNum (lexeme : jsstring)
| JStr (s : jsstring)
| JArr (elements : list json)
| JObj (members : list (jsstring * json)).

(** *** [JSON.stringify]: QuoteJSONString *)

Definition is_high_surrogate (c : N) : bool := (55296 <=? c) && (c <=? 56319).
Definition is_low_surrogate (c : N) : bool := (56320 <=? c) && (c <=? 57343).

(** Lower-case hexadecimal digit of a value below 16. *)
Definition hex_digit (d : N) : N := if d <? 10 then 48 + d else 87 + d.

(** [\uXXXX] *)
Definition unicode_escape (c : N) : jsstring :=
  [92; 117; hex_digit (c / 4096 mod 16); hex_digit (c / 256 mod 16);
   hex_digit (c / 16 mod 16); hex_digit (c mod 16)].

(** One code unit that is not the first half of a surrogate pair. *)
Definition quote_unit (c : N) : jsstring :=
  if c =? 8 then [92; 98]
  else if c =? 9 then [92; 116]
  else if c =? 10 then [92; 110]
  else if c =? 12 then [92; 102]
  else if c =? 13 then [92; 114]
  else if c =? 34 then [92; 34]
  else if c =? 92 then [92; 92]
  else if (c <? 32) || is_high_surrogate c || is_low_surrogate c
       then unicode_escape c
  else [c].

(** The string is read code point by code point: a well-formed surrogate
    pair is copied, a lone surrogate is escaped. *)
Fixpoint quote_body (s : jsstring) : jsstring :=
  match s with
  | [] => []
  | c :: r =>
      if is_high_surrogate c then
        match r with
        | d :: r' =>
            if is_low_surrogate d then c :: d :: quote_body r'
            else unicode_escape c ++ quote_body r
        | [] => unicode_escape c
        end
      else quote_unit c ++ quote_body r
  end.

Definition quote (s : jsstring) : jsstring := 34 :: quote_body s ++ [34].

(** *** [JSON.parse] *)

Definition is_ws (c : N) : bool :=
  (c =? 32) || (c =? 9) || (c =? 10) || (c =? 13).

Fixpoint skip_ws (s : jsstring) : jsstring :=
  match s with
  | c :: r => if is_ws c then skip_ws r else s
  | [] => []
  end.

Definition is_digit (c : N) : bool := (48 <=? c) && (c <=? 57).

Definition hex_val (c : N) : option N :=
  if is_digit c then Some (c - 48)
  else if (97 <=? c) && (c <=? 102) then Some (c - 87)
  else if (65 <=? c) && (c <=? 70) then Some (c - 55)
  else None.

Definition hex4 (a b c d : N) : option N :=
  match hex_val a, hex_val b, hex_val c, hex_val d with
  | Some x, Some y, Some z, Some w => Some (4096 * x + 256 * y + 16 * z + w)
  | _, _, _, _ => None
  end.

(** The character after a backslash, [u] apart. *)
Definition unescape (e : N) : option N :=
  if e =? 34 then Some 34
  else if e =? 92 then Some 92
  else if e =? 47 then Some 47
  else if e =? 98 then Some 8
  else if e =? 102 then Some 12
  else if e =? 110 then Some 10
  else if e =? 114 then Some 13
  else if e =? 116 then Some 9
  else None.

Definition push (c : N) (r : option (jsstring * jsstring))
  : option (jsstring * jsstring) :=
  match r with
  | Some (cs, rest) => Some (c :: cs, rest)
  | None => None
  end.

(** The characters of a string literal after its opening quote, up to and
    including the closing quote. *)
Fixpoint parse_chars (s : jsstring) : option (jsstring * jsstring) :=
  match s with
  | [] => None
  | c :: r =>
      if c =? 34 then Some ([], r)
      else if c =? 92 then
        match r with
        | [] => None
        | e :: r1 =>
            if e =? 117 then
              match r1 with
              | h1 :: h2 :: h3 :: h4 :: r2 =>
                  match hex4 h1 h2 h3 h4 with
                  | Some u => push u (parse_chars r2)
                  | None => None
                  end
              | _ => None
              end
            else
              match unescape e with
              | Some u => push u (parse_chars r1)
              | None => None
              end
        end
      else if c <? 32 then None
      else push c (parse_chars r)
  end.

Fixpoint span_digits (s : jsstring) : jsstring * jsstring :=
  match s with
  | c :: r =>
      if is_digit c then
        let (ds, rest) := span_digits r in (c :: ds, rest)
      else ([], s)
  | [] => ([], [])
  end.

Definition parse_int (s : jsstring) : option (jsstring * jsstring) :=
  match s with
  | c :: r =>
      if c =? 48 then Some ([48], r)
      else if is_digit c then
        let (ds, rest) := span_digits r in Some (c :: ds, rest)
      else None
  | [] => None
  end.

Definition parse_frac (s : jsstring) : option (jsstring * jsstring) :=
  match s with
  | c :: r =>
      if c =? 46 then
        match span_digits r with
        | ([], _) => None
        | (ds, rest) => Some (46 :: ds, rest)
        end
      else Some ([], s)
  | [] => Some ([], [])
  end.

Definition parse_exp (s : jsstring) : option (jsstring * jsstring) :=
  match s with
  | c :: r =>
      if (c =? 101) || (c =? 69) then
        let (sign, r1) :=
          match r with
          | d :: r' => if (d =? 43) || (d =? 45) then ([d], r') else ([], r)
          | [] => ([], [])
          end in
        match span_digits r1 with
        | ([], _) => None
        | (ds, rest) => Some (c :: sign ++ ds, rest)
        end
      else Some ([], s)
  | [] => Some ([], [])
  end.

Definition parse_number (s : jsstring) : option (jsstring * jsstring) :=
  let (sign, s1) :=
    match s with
    | c :: r => if c =? 45 then ([45], r) else ([], s)
    | [] => ([], [])
    end in
  match parse_int s1 with
  | None => None
  | Some (i, s2) =>
      match parse_frac s2 with
      | None => None
      | Some (f, s3) =>
          match parse_exp s3 with
          | None => None
          | Some (e, s4) => Some (sign ++ i ++ f ++ e, s4)
          end
      end
  end.

Fixpoint strip_prefix (p s : jsstring) : option jsstring :=
  match p, s with
  | [], _ => Some s
  | a :: p', b :: s' => if a =? b then strip_prefix p' s' else None
  | _ :: _, [] => None
  end.

Definition literal (p : jsstring) (v : json) (s : jsstring)
  : option (json * jsstring) :=
  match strip_prefix p s with
  | Some rest => Some (v, rest)
  | None => None
  end.

(** The recursive descent on values, elements of an array and members of
    an object.  [fuel] bounds the number of nested calls; [parse] below
    gives it twice the length of the text and two more, which the text
    cannot exhaust ([parse_value_fuel]). *)
Fixpoint parse_value (fuel : nat) (s : jsstring) : option (json * jsstring) :=
  match fuel with
  | O => None
  | S fuel =>
      match skip_ws s with
      | [] => None
      | c :: r =>
          if c =? 34 then
            match parse_chars r with
            | Some (cs, rest) => Some (JStr cs, rest)
            | None => None
            end
          else if c =? 91 then
            match skip_ws r with
            | [] => None
            | d :: r' =>
                if d =? 93 then Some (JArr [], r')
                else
                  match parse_elements fuel r with
                  | Some (vs, rest) => Some (JArr vs, rest)
                  | None => None
                  end
            end
          else if c =? 123 then
            match skip_ws r with
            | [] => None
            | d :: r' =>
                if d =? 125 then Some (JObj [], r')
                else
                  match parse_members fuel r with
                  | Some (ms, rest) => Some (JObj ms, rest)
                  | None => None
                  end
            end
          else if c =? 116 then literal [114; 117; 101] (JBool true) r
          else if c =? 102 then literal [97; 108; 115; 101] (JBool false) r
          else if c =? 110 then literal [117; 108; 108] JNull r
          else
            match parse_number (c :: r) with
            | Some (lexeme, rest) => Some (JNum lexeme, rest)
            | None => None
            end
      end
  end

with parse_elements (fuel : nat) (s : jsstring)
  : option (list json * jsstring) :=
  match fuel with
  | O => None
  | S fuel =>
      match parse_value fuel s with
      | None => None
      | Some (v, rest) =>
          match skip_ws rest with
          | [] => None
          | c :: r =>
              if c =? 44 then
                match parse_elements fuel r with
                | Some (vs, rest') => Some (v :: vs, rest')
                | None => None
                end
              else if c =? 93 then Some ([v], r)
              else None
          end
      end
  end

with parse_members (fuel : nat) (s : jsstring)
  : option (list (jsstring * json) * jsstring) :=
  match fuel with
  | O => None
  | S fuel =>
      match skip_ws s with
      | [] => None
      | c :: r =>
          if c =? 34 then
            match parse_chars r with
            | None => None
            | Some (k, rest) =>
                match skip_ws rest with
                | [] => None
                | d :: r1 =>
                    if d =? 58 then
                      match parse_value fuel r1 with
                      | None => None
                      | Some (v, rest1) =>
                          match skip_ws rest1 with
                          | [] => None
                          | e :: r2 =>
                              if e =? 44 then
                                match parse_members fuel r2 with
                                | Some (ms, rest2) => Some ((k, v) :: ms, rest2)
                                | None => None
                                end
                              else if e =? 125 then Some ([(k, v)], r2)
                              else None
                          end
                      end
                    else None
                end
            end
          else None
      end
  end.

(** [JSON.parse]: one value, surrounded by white space only.  [None] is
    the [SyntaxError] the built-in throws. *)
Definition parse (s : jsstring) : option json :=
  match parse_value (2 * List.length s + 2) s with
  | Some (v, rest) =>
      match skip_ws rest with
      | [] => Some v
      | _ :: _ => None
      end
  | None => None
  end.

End Json.

Export Json.

(** ** The state of [App] *)

(** [interface Todo] *)
Record Todo : Type := mkTodo {
  id : jsstring;
  text : jsstring;
  completed : bool
}.

(** [type Filter = 'all' | 'active' | 'completed'] *)
Module Filter.
Inductive t : Type := all | active | completed.
End Filter.

(** The four [useState] cells.  TypeScript declares [todos : Todo[]], and
    every handler builds such an array, so the handlers run with
    [T := list Todo]; the start-up effect stores whatever [JSON.parse]
    returns, so it runs with [T := json]. *)
Record AppState (T : Type) : Type := mkApp {
  isDark : bool;
  todos : T;
  input : jsstring;
  filter : Filter.t
}.
Arguments mkApp {T} _ _ _ _.
Arguments isDark {T} _.
Arguments todos {T} _.
Arguments input {T} _.
Arguments filter {T} _.

Definition STORAGE_KEY : string := "@todos".
Definition THEME_KEY : string := "@theme".

(** ** [AsyncStorage] *)

(** The key-value store of the device.  [readable] and [writable] say
    whether the promises of [getItem] and [setItem] resolve or reject. *)
Record AsyncStorage : Type := mkStorage {
  items : gmap string jsstring;
  readable : bool;
  writable : bool
}.

Inductive Exn : Type :=
| StorageError
| SyntaxError.

(** What a handler can touch: the component state, the store and the
    console. *)
Record World (T : Type) : Type := mkWorld {
  app : AppState T;
  storage : AsyncStorage;
  console : list Exn
}.
Arguments mkWorld {T} _ _ _.
Arguments app {T} _.
Arguments storage {T} _.
Arguments console {T} _.

(** ** A state and exception monad for the handlers *)

Definition M (T A : Type) : Type := World T -> World T * (Exn + A).

Definition ret {T A} (a : A) : M T A := fun w => (w, inr a).

Definition throw {T A} (e : Exn) : M T A := fun w => (w, inl e).

Definition bind {T A B} (m : M T A) (k : A -> M T B) : M T B :=
  fun w =>
    match m w with
    | (w', inr a) => k a w'
    | (w', inl e) => (w', inl e)
    end.

(** [try { m } catch (e) { h e }] *)
Definition try_catch {T A} (m : M T A) (h : Exn -> M T A) : M T A :=
  fun w =>
    match m w with
    | (w', inl e) => h e w'
    | (w', inr a) => (w', inr a)
    end.

Notation "'let*' x ':=' m 'in' k" := (bind m (fun x => k))
  (at level 10, x name, m at level 100, k at level 200).
Notation "m ';;;' k" := (bind m (fun _ => k))
  (at level 100, k at level 200, right associativity).

(** The world a handler leaves behind, and what it returns or throws. *)
Definition exec {T A} (m : M T A) (w : World T) : World T := fst (m w).
Definition outcome {T A} (m : M T A) (w : World T) : Exn + A := snd (m w).

Definition get_app {T} : M T (AppState T) := fun w => (w, inr (app w)).

Definition set_app {T} (f : AppState T -> AppState T) : M T unit :=
  fun w => (mkWorld (f (app w)) (storage w) (console w), inr tt).

Definition setIsDark {T} (b : bool) : M T unit :=
  set_app (fun a => mkApp b (todos a) (input a) (filter a)).

Definition setTodos {T} (v : T) : M T unit :=
  set_app (fun a => mkApp (isDark a) v (input a) (filter a)).

Definition setInput {T} (s : jsstring) : M T unit :=
  set_app (fun a => mkApp (isDark a) (todos a) s (filter a)).

Definition setFilter {T} (f : Filter.t) : M T unit :=
  set_app (fun a => mkApp (isDark a) (todos a) (input a) f).

Definition console_error {T} (e : Exn) : M T unit :=
  fun w => (mkWorld (app w) (storage w) (e :: console w), inr tt).

(** [await AsyncStorage.getItem(key)]: the string, [null], or a
    rejection. *)
Definition getItem {T} (key : string) : M T (option jsstring) :=
  fun w =>
    if readable (storage w) then (w, inr (items (storage w) !! key))
    else (w, inl StorageError).

(** [await AsyncStorage.setItem(key, value)] *)
Definition setItem {T} (key : string) (value : jsstring) : M T unit :=
  fun w =>
    if writable (storage w) then
      (mkWorld (app w)
         (mkStorage (<[key := value]> (items (storage w)))
            (readable (storage w)) (writable (storage w)))
         (console w), inr tt)
    else (w, inl StorageError).

Definition JSON_parse {T} (s : jsstring) : M T json :=
  match Json.parse s with
  | Some v => ret v
  | None => throw SyntaxError
  end.

(** ** [JSON.stringify] on a [Todo[]] *)

Definition key_id : jsstring := Eval cbv in js "id".
Definition key_text : jsstring := Eval cbv in js "text".
Definition key_completed : jsstring := Eval cbv in js "completed".

Definition stringify_bool (b : bool) : jsstring :=
  if b then [116; 114; 117; 101] else [102; 97; 108; 115; 101].

(** The properties of a [Todo] in creation order: [id], [text],
    [completed] (the spread in [toggleComplete] keeps that order). *)
Definition stringify_todo (t : Todo) : jsstring :=
  [123] ++ Json.quote key_id ++ [58] ++ Json.quote (id t) ++ [44]
  ++ Json.quote key_text ++ [58] ++ Json.quote (text t) ++ [44]
  ++ Json.quote key_completed ++ [58] ++ stringify_bool (completed t)
  ++ [125].

Fixpoint join_comma (l : list jsstring) : jsstring :=
  match l with
  | [] => []
  | x :: r =>
      match r with
      | [] => x
      | _ :: _ => x ++ 44 :: join_comma r
      end
  end.

Definition JSON_stringify (l : list Todo) : jsstring :=
  [91] ++ join_comma (List.map stringify_todo l) ++ [93].

(** The JavaScript value a [Todo[]] is. *)
Definition todo_to_json (t : Todo) : json :=
  JObj [(key_id, JStr (id t)); (key_text, JStr (text t));
        (key_completed, JBool (completed t))].

Definition todos_to_json (l : list Todo) : json :=
  JArr (List.map todo_to_json l).

(** Property access on a parsed object: the last member of that name
    (a later duplicate overwrites an earlier one). *)
Fixpoint member (k : jsstring) (ms : list (jsstring * json)) : option json :=
  match ms with
  | [] => None
  | (k', v) :: r =>
      match member k r with
      | Some v' => Some v'
      | None => if bool_decide (k' = k) then Some v else None
      end
  end.

(** Reading a value at type [Todo], respectively [Todo[]]: the expected
    shape of the stored array. *)
Definition todo_of_json (v : json) : option Todo :=
  match v with
  | JObj ms =>
      match member key_id ms, member key_text ms, member key_completed ms with
      | Some (JStr i), Some (JStr x), Some (JBool c) => Some (mkTodo i x c)
      | _, _, _ => None
      end
  | _ => None
  end.

Fixpoint todos_of_elements (l : list json) : option (list Todo) :=
  match l with
  | [] => Some []
  | v :: r =>
      match todo_of_json v, todos_of_elements r with
      | Some t, Some ts => Some (t :: ts)
      | _, _ => None
      end
  end.

Definition todos_of_json (v : json) : option (list Todo) :=
  match v with
  | JArr l => todos_of_elements l
  | _ => None
  end.

(** ** The handlers of [App] *)

(** The start-up effect ([useEffect], lines 37-48): the statements of
    its body.  The render that React runs after a state write is not
    part of it; it matters on one path only, when [JSON.parse] returns
    a value that is not an array of tasks: if the value is not an array
    at all, the render that follows throws (see [filter_callable]). *)
Definition load : M json unit :=
  try_catch
    (let* saved := getItem STORAGE_KEY in
     let* savedTheme := getItem THEME_KEY in
     match saved with
     | Some s =>
         if JsString.truthy s
         then let* v := JSON_parse s in setTodos v
         else ret tt
     | None => ret tt
     end ;;;
     if bool_decide (savedTheme = Some (js "dark"))
     then setIsDark true
     else ret tt)
    console_error.

(** The state of a freshly mounted component. *)
Definition initial {T} (empty : T) : AppState T :=
  mkApp false empty [] Filter.all.

(** The component at start-up, over a given store: [todos] is the
    JavaScript value [[]]. *)
Definition startup (s : AsyncStorage) : World json :=
  mkWorld (initial (JArr [])) s [].

(** The component after a start-up that found nothing, ready for the
    handlers. *)
Definition mounted (s : AsyncStorage) : World (list Todo) :=
  mkWorld (initial []) s [].

(** [saveTodos] (lines 51-58) *)
Definition saveTodos (newTodos : list Todo) : M (list Todo) unit :=
  try_catch
    (setItem STORAGE_KEY (JSON_stringify newTodos) ;;;
     setTodos newTodos)
    console_error.

(** [handleThemeToggle] (lines 61-65) *)
Definition handleThemeToggle {T} : M T unit :=
  let* a := get_app in
  let newTheme := negb (isDark a) in
  setIsDark newTheme ;;;
  setItem THEME_KEY (if newTheme then js "dark" else js "light").

(** [addTodo] (lines 68-77); [now] is what [Date.now()] returns. *)
Definition addTodo (now : N) : M (list Todo) unit :=
  let* a := get_app in
  if negb (JsString.truthy (JsString.trim (input a))) then ret tt
  else
    let newTodo :=
      {| id := JsString.of_number now;
         text := JsString.trim (input a);
         completed := false |} in
    saveTodos (todos a ++ [newTodo]) ;;;
    setInput [].

(** [toggleComplete] (lines 79-81) *)
Definition toggleComplete (id' : jsstring) : M (list Todo) unit :=
  let* a := get_app in
  saveTodos
    (List.map
       (fun t =>
          if bool_decide (id t = id')
          then {| id := id t; text := text t; completed := negb (completed t) |}
          else t)
       (todos a)).

(** [deleteTodo] (lines 83-85) *)
Definition deleteTodo (id' : jsstring) : M (list Todo) unit :=
  let* a := get_app in
  saveTodos (List.filter (fun t => negb (bool_decide (id t = id'))) (todos a)).

(** [clearCompleted] (lines 87-92): the alert, and the button the user
    picks in it. *)
Definition clearCompleted (pressClear : bool) : M (list Todo) unit :=
  let* a := get_app in
  if pressClear
  then saveTodos (List.filter (fun t => negb (completed t)) (todos a))
  else ret tt.

(** [onDragEnd] of the list (line 182): [data] is the array the list
    component hands back. *)
Definition onDragEnd (data : list Todo) : M (list Todo) unit :=
  saveTodos data.

(** [filteredTodos] (lines 94-98) *)
Definition filteredTodos (a : AppState (list Todo)) : list Todo :=
  List.filter
    (fun t =>
       match filter a with
       | Filter.active => negb (completed t)
       | Filter.completed => completed t
       | Filter.all => true
       end)
    (todos a).

(** [activeCount] (line 100) *)
Definition activeCount (a : AppState (list Todo)) : nat :=
  List.length (List.filter (fun t => negb (completed t)) (todos a)).

(** What a render needs of [todos] before anything else: lines 94 and
    100 call [todos.filter], which only an array has; on any other
    value the call is a [TypeError] and the render throws. *)
Definition filter_callable (v : json) : bool :=
  match v with
  | JArr _ => true
  | _ => false
  end.

(** [toggleComplete] as one render created it: the [todos] of line 80
    is the list that render showed.  [toggleComplete] above is the
    handler of the current render; a press that is handled before the
    component re-rendered still runs the handler of the render before. *)
Definition toggleComplete_of (rendered : list Todo) (id' : jsstring)
  : M (list Todo) unit :=
  saveTodos
    (List.map
       (fun t =>
          if bool_decide (id t = id')
          then {| id := id t; text := text t; completed := negb (completed t) |}
          else t)
       rendered).

(** ** The intents of the user *)

(** [add(text)]: type [text] into the field, then submit. *)
Definition add (text' : jsstring) (now : N) : M (list Todo) unit :=
  setInput text' ;;; addTodo now.

(** The operations that end in [saveTodos]. *)
Inductive Mutation : Type :=
| Add (text' : jsstring) (now : N)
| ToggleComplete (id' : jsstring)
| Delete (id' : jsstring)
| Reorder (data : list Todo)
| ClearCompleted.

Definition mutate (m : Mutation) : M (list Todo) unit :=
  match m with
  | Add text' now => add text' now
  | ToggleComplete id' => toggleComplete id'
  | Delete id' => deleteTodo id'
  | Reorder data => onDragEnd data
  | ClearCompleted => clearCompleted true
  end.

Fixpoint run (ms : list Mutation) (w : World (list Todo)) : World (list Todo) :=
  match ms with
  | [] => w
  | m :: r => run r (exec (mutate m) w)
  end.

(** [{ ...t, completed: !t.completed }] *)
Definition flip (t : Todo) : Todo :=
  {| id := id t; text := text t; completed := negb (completed t) |}.

(** The array each mutation hands to [saveTodos], as a function of the
    current array. *)
Definition next_todos (m : Mutation) (ts : list Todo) : list Todo :=
  match m with
  | Add text' now =>
      if JsString.truthy (JsString.trim text')
      then ts ++ [mkTodo (JsString.of_number now) (JsString.trim text') false]
      else ts
  | ToggleComplete id' =>
      List.map (fun t => if bool_decide (id t = id') then flip t else t) ts
  | Delete id' => List.filter (fun t => negb (bool_decide (id t = id'))) ts
  | Reorder data => data
  | ClearCompleted => List.filter (fun t => negb (completed t)) ts
  end.

(** Two task lists hold the same set of ids. *)
Definition same_ids (l1 l2 : list Todo) : Prop :=
  forall x : jsstring, In x (List.map id l1) <-> In x (List.map id l2).

(** Stores used in the examples. *)
Definition store_of (l : list (string * jsstring)) (r w : bool) : AsyncStorage :=
  mkStorage (list_to_map l) r w.

Definition with_todos (ts : list Todo) (f : Filter.t) (s : AsyncStorage)
  : World (list Todo) :=
  mkWorld (mkApp false ts [] f) s [].

(** The number of tasks of a list that are not completed, counted one by
    one. *)
Fixpoint count_active (ts : list Todo) : nat :=
  match ts with
  | [] => O
  | t :: r => if completed t then count_active r else S (count_active r)
  end.

(** The side condition under which a mutation keeps ids apart: the clock
    reading of an add is not yet the id of a task, and the payload of a
    reorder has no repeated id. *)
Definition fresh (m : Mutation) (ts : list Todo) : Prop :=
  match m with
  | Add _ now => ~ In (JsString.of_number now) (List.map id ts)
  | Reorder data => NoDup (List.map id data)
  | _ => True
  end.

Fixpoint all_fresh (ms : list Mutation) (w : World (list Todo)) : Prop :=
  match ms with
  | [] => True
  | m :: r => fresh m (todos (app w)) /\ all_fresh r (exec (mutate m) w)
  end.

(** Sample data for the examples. *)
Module Sample.
Definition buy : Todo := mkTodo (js "1") (js "buy milk") false.
Definition call : Todo := mkTodo (js "2") (js "call home") true.
Definition walk : Todo := mkTodo (js "3") (js "walk") false.
(** A store that accepts every read and write, and one whose writes
    are rejected. *)
Definition healthy : AsyncStorage := store_of [] true true.
Definition read_only : AsyncStorage := store_of [] true false.
(** Stores whose task-list blob is not a task array: an object, a
    truncated text, the empty string. *)
Definition holds_object : AsyncStorage :=
  store_of [(STORAGE_KEY, js "{}"); (THEME_KEY, js "dark")] true true.
Definition holds_garbage : AsyncStorage :=
  store_of [(STORAGE_KEY, js "[{oops"); (THEME_KEY, js "dark")] true true.
Definition holds_empty : AsyncStorage :=
  store_of [(STORAGE_KEY, js ""); (THEME_KEY, js "dark")] true true.
End Sample.

(** A successful parse consumes input, and succeeds again, with the same
    result, on any fuel of at least twice what it consumed. *)
Definition enough_fuel {A : Type}
  (p : nat -> jsstring -> option (A * jsstring)) (extra f : nat) : Prop :=
  forall (s : jsstring) (a : A) (rest : jsstring),
    p f s = Some (a, rest) ->
    (List.length rest < List.length s)%nat
    /\ forall f' : nat,
         (2 * (List.length s - List.length rest) + extra <= f')%nat ->
         p f' s = Some (a, rest).

(** ** The rest of the screen *)

(** [todos.some(t => t.completed)] (line 195): whether the footer offers
    "Clear Completed". *)
Definition hasCompleted (a : AppState (list Todo)) : bool :=
  List.existsb (fun t => completed t) (todos a).

(** The two buttons [renderItem] puts on a row (lines 112 and 133). *)
Definition onPressCheckbox (item : Todo) : M (list Todo) unit :=
  toggleComplete (id item).

Definition onPressDelete (item : Todo) : M (list Todo) unit :=
  deleteTodo (id item).

(** Everything the user can do on the screen. *)
Inductive Intent : Type :=
| Mutate (m : Mutation)
| SelectFilter (f : Filter.t)
| SwitchTheme
| DismissClear.

Definition dispatch (i : Intent) : M (list Todo) unit :=
  match i with
  | Mutate m => mutate m
  | SelectFilter f => setFilter f
  | SwitchTheme => handleThemeToggle
  | DismissClear => clearCompleted false
  end.

(** A session: the intents one after the other.  A rejected promise of
    the theme switch is not handled anywhere and the session goes on. *)
Fixpoint play (l : list Intent) (w : World (list Todo)) : World (list Todo) :=
  match l with
  | [] => w
  | i :: r => play r (exec (dispatch i) w)
  end.

(** The store and the memory agree on the task list: the blob under
    ["@todos"] is the text of [todos], or there is no blob and no task. *)
Definition todos_in_step (w : World (list Todo)) : Prop :=
  match items (storage w) !! STORAGE_KEY with
  | Some blob => blob = JSON_stringify (todos (app w))
  | None => todos (app w) = []
  end.

(** The store and the memory agree on the theme. *)
Definition theme_in_step (w : World (list Todo)) : Prop :=
  isDark (app w)
  = bool_decide (items (storage w) !! THEME_KEY = Some (js "dark")).

(** What the list component hands to [onDragEnd]: the rows it was given,
    in the new order. *)
Definition drag_from_view (i : Intent) (a : AppState (list Todo)) : Prop :=
  match i with
  | Mutate (Reorder data) => Permutation data (filteredTodos a)
  | _ => True
  end.

Fixpoint drags_from_view (l : list Intent) (w : World (list Todo)) : Prop :=
  match l with
  | [] => True
  | i :: r => drag_from_view i (app w) /\ drags_from_view r (exec (dispatch i) w)
  end.

(** The values [Date.now()] returned to the adds of a session. *)
Fixpoint clock_readings (l : list Intent) : list N :=
  match l with
  | [] => []
  | Mutate (Add _ now) :: r => now :: clock_readings r
  | _ :: r => clock_readings r
  end.

(** A text as [addTodo] stores it: not empty and with no white space at
    either end. *)
Definition well_trimmed (t : Todo) : Prop :=
  text t <> [] /\ JsString.trim (text t) = text t.

(** Whether a mutation reaches [saveTodos]: all do, except an add of
    blank text. *)
Definition calls_saveTodos (m : Mutation) : bool :=
  match m with
  | Add text' _ => JsString.truthy (JsString.trim text')
  | _ => true
  end.

(** Unfolds the start-up effect down to the monad. *)
Ltac unfold_load :=
  unfold load, exec, outcome, try_catch, bind, getItem, JSON_parse, setTodos,
    setIsDark, set_app, console_error, ret, throw.

(** Unfolds a handler down to the monad. *)
Ltac unfold_handlers :=
  unfold dispatch, mutate, add, addTodo, toggleComplete, deleteTodo,
    clearCompleted, onDragEnd, onPressCheckbox, onPressDelete,
    handleThemeToggle, saveTodos, setFilter, exec, outcome, try_catch, bind,
    setItem, setTodos, setInput, setIsDark, set_app, get_app, console_error,
    ret.

(** * Properties *)

(** ** The built-ins on examples *)

Example trim_spaces : JsString.trim (js "  buy milk ") = js "buy milk".
Proof. reflexivity. Qed.

Example trim_line_separator : JsString.trim [8232; 97; 160; 10] = [97].
Proof. reflexivity. Qed.

Example of_number_clock : JsString.of_number 1700000000000 = js "1700000000000".
Proof. reflexivity. Qed.

Example parse_mixed_array :
  Json.parse (js " [1, {} , true,null, -0.5e+3 ] ")
  = Some (JArr [JNum (js "1"); JObj []; JBool true; JNull;
                JNum (js "-0.5e+3")]).
Proof. vm_compute. reflexivity. Qed.

Example parse_trailing_comma : Json.parse (js "[1,]") = None.
Proof. vm_compute. reflexivity. Qed.

Example parse_empty_text : Json.parse (js "") = None.
Proof. vm_compute. reflexivity. Qed.

Example parse_leading_zero : Json.parse (js "01") = None.
Proof. vm_compute. reflexivity. Qed.

Example parse_raw_newline_in_string : Json.parse [34; 97; 10; 34] = None.
Proof. vm_compute. reflexivity. Qed.

Example parse_escapes :
  Json.parse (34 :: js "a\n\u0041\/" ++ [34]) = Some (JStr [97; 10; 65; 47]).
Proof. vm_compute. reflexivity. Qed.

Example quote_escapes :
  Json.quote [97; 10; 55357; 56832; 55357; 1; 34]
  = 34 :: js "a\n" ++ [55357; 56832] ++ js "\ud83d\u0001" ++ [92; 34; 34].
Proof. vm_compute. reflexivity. Qed.

Example stringify_one :
  JSON_stringify [Sample.call]
  = js "[{" ++ Json.quote (js "id") ++ js ":" ++ Json.quote (js "2")
    ++ js "," ++ Json.quote (js "text") ++ js ":"
    ++ Json.quote (js "call home") ++ js ","
    ++ Json.quote (js "completed") ++ js ":true}]".
Proof. vm_compute. reflexivity. Qed.

(** The scenario of the specification: start empty, add "a", add "b",
    toggle "a", look at the completed view, clear the completed tasks. *)
Example scenario_clear_completed :
  filteredTodos
    (mkApp false
       (todos (app (run [Add (js "a") 1; Add (js "b") 2;
                         ToggleComplete (js "1")]
                      (mounted Sample.healthy))))
       [] Filter.completed)
  = [mkTodo (js "1") (js "a") true]
  /\ todos (app (run [Add (js "a") 1; Add (js "b") 2;
                      ToggleComplete (js "1"); ClearCompleted]
                   (mounted Sample.healthy)))
     = [mkTodo (js "2") (js "b") false].
Proof. split; reflexivity. Qed.

(** ** [saveTodos]: the state follows the write *)

Lemma saveTodos_eq (l : list Todo) (w : World (list Todo)) :
  saveTodos l w =
  if writable (storage w) then
    (mkWorld (mkApp (isDark (app w)) l (input (app w)) (filter (app w)))
       (mkStorage (<[STORAGE_KEY := JSON_stringify l]> (items (storage w)))
          (readable (storage w)) (writable (storage w)))
       (console w), inr tt)
  else (mkWorld (app w) (storage w) (StorageError :: console w), inr tt).
Proof.
  unfold saveTodos, try_catch, bind, setItem, setTodos, set_app, console_error.
  destruct (writable (storage w)); reflexivity.
Qed.

Lemma saveTodos_todos (l : list Todo) (w : World (list Todo)) :
  todos (app (exec (saveTodos l) w)) =
  if writable (storage w) then l else todos (app w).
Proof.
  unfold exec. rewrite saveTodos_eq.
  destruct (writable (storage w)); reflexivity.
Qed.

Lemma saveTodos_outcome (l : list Todo) (w : World (list Todo)) :
  outcome (saveTodos l) w = inr tt.
Proof.
  unfold outcome. rewrite saveTodos_eq.
  destruct (writable (storage w)); reflexivity.
Qed.

Lemma saveTodos_writable (l : list Todo) (w : World (list Todo)) :
  writable (storage (exec (saveTodos l) w)) = writable (storage w).
Proof.
  unfold exec. rewrite saveTodos_eq.
  destruct (writable (storage w)) eqn:E; simpl; auto.
Qed.

(** Every mutation installs [next_todos] when the write succeeds and
    nothing when it fails. *)
Lemma mutate_todos (m : Mutation) (w : World (list Todo)) :
  todos (app (exec (mutate m) w)) =
  if writable (storage w) then next_todos m (todos (app w))
  else todos (app w).
Proof.
  destruct m as [text' now | id' | id' | data | ]; simpl.
  - unfold add, addTodo, exec, bind, setInput, set_app, get_app. simpl.
    destruct (JsString.truthy (JsString.trim text')); simpl.
    + rewrite saveTodos_eq. simpl.
      destruct (writable (storage w)); reflexivity.
    + destruct (writable (storage w)); reflexivity.
  - unfold toggleComplete, bind, get_app, exec. simpl.
    rewrite saveTodos_eq. destruct (writable (storage w)); reflexivity.
  - unfold deleteTodo, bind, get_app, exec. simpl.
    rewrite saveTodos_eq. destruct (writable (storage w)); reflexivity.
  - unfold onDragEnd. apply saveTodos_todos.
  - unfold clearCompleted, bind, get_app, exec. simpl.
    rewrite saveTodos_eq. destruct (writable (storage w)); reflexivity.
Qed.

Lemma mutate_writable (m : Mutation) (w : World (list Todo)) :
  writable (storage (exec (mutate m) w)) = writable (storage w).
Proof.
  destruct m as [text' now | id' | id' | data | ]; simpl.
  - unfold add, addTodo, exec, bind, setInput, set_app, get_app. simpl.
    destruct (JsString.truthy (JsString.trim text')); simpl; auto.
    rewrite saveTodos_eq. simpl.
    destruct (writable (storage w)) eqn:E; simpl; auto.
  - unfold toggleComplete, bind, get_app, exec. simpl.
    rewrite saveTodos_eq. destruct (writable (storage w)) eqn:E; simpl; auto.
  - unfold deleteTodo, bind, get_app, exec. simpl.
    rewrite saveTodos_eq. destruct (writable (storage w)) eqn:E; simpl; auto.
  - unfold onDragEnd. apply saveTodos_writable.
  - unfold clearCompleted, bind, get_app, exec. simpl.
    rewrite saveTodos_eq. destruct (writable (storage w)) eqn:E; simpl; auto.
Qed.

(** ** C1: reorder *)

(** C1 does not hold of the code: [onDragEnd] saves whatever the list
    hands back as the whole task list, and the list is fed the filtered
    view.  Three tasks, the second one completed, shown under the filter
    [active]; the user drags the third above the first.  The list
    component hands back the two visible tasks, whose id set differs
    from the current one; the payload is not rejected but installed,
    and the completed task, which was only hidden, is gone. *)
Lemma onDragEnd_mismatch_accepted :
  Permutation [Sample.walk; Sample.buy]
    (filteredTodos
       (mkApp false [Sample.buy; Sample.call; Sample.walk] [] Filter.active))
  /\ ~ same_ids [Sample.walk; Sample.buy]
        [Sample.buy; Sample.call; Sample.walk]
  /\ todos (app (exec (onDragEnd [Sample.walk; Sample.buy])
                   (with_todos [Sample.buy; Sample.call; Sample.walk]
                      Filter.active Sample.healthy)))
     = [Sample.walk; Sample.buy]
  /\ todos (app (exec (onDragEnd [Sample.walk; Sample.buy])
                   (with_todos [Sample.buy; Sample.call; Sample.walk]
                      Filter.active Sample.healthy)))
     <> [Sample.buy; Sample.call; Sample.walk].
Proof.
  split; [| split; [| split; [| vm_compute; discriminate]]].
  - vm_compute. apply perm_swap.
  - intros H. destruct (H (js "2")) as [_ Hin].
    assert (Hdata : In (js "2") (List.map id [Sample.walk; Sample.buy])).
    { apply Hin. vm_compute. right. left. reflexivity. }
    vm_compute in Hdata.
    destruct Hdata as [Hd | [Hd | Hd]]; [discriminate | discriminate | exact Hd].
  - reflexivity.
Qed.

(** ** C2: a failed write *)

(** C2, as amended.  For every mutating operation (add, toggleComplete,
    delete, reorder, clearCompleted), if the write to the store fails the
    in-memory task list is left as it was before the operation: [setTodos]
    runs only after the write has succeeded, so the mutation is not
    visible to the next read. *)
Theorem failed_write_keeps_todos (m : Mutation) (w : World (list Todo)) :
  writable (storage w) = false ->
  todos (app (exec (mutate m) w)) = todos (app w).
Proof. intros Hw. rewrite mutate_todos, Hw. reflexivity. Qed.

Lemma failed_write_keeps_todos_witness :
  writable (storage (with_todos [Sample.buy] Filter.all Sample.read_only))
  = false
  /\ todos (app (exec (mutate (ToggleComplete (js "1")))
                   (with_todos [Sample.buy] Filter.all Sample.read_only)))
     = [Sample.buy].
Proof.
  split; [reflexivity |].
  apply (failed_write_keeps_todos (ToggleComplete (js "1"))
           (with_todos [Sample.buy] Filter.all Sample.read_only)).
  reflexivity.
Defined.

(** C2 fails as stated.  With a store that rejects writes, adding a task
    to the empty list leaves the list empty: it has not advanced to the
    one-task list the operation computed. *)
Lemma failed_write_drops_mutation :
  writable (storage (mounted Sample.read_only)) = false
  /\ next_todos (Add (js "a") 1000) (todos (app (mounted Sample.read_only)))
     = [mkTodo (js "1000") (js "a") false]
  /\ todos (app (exec (mutate (Add (js "a") 1000)) (mounted Sample.read_only)))
     = []
  /\ todos (app (exec (mutate (Add (js "a") 1000)) (mounted Sample.read_only)))
     <> next_todos (Add (js "a") 1000)
          (todos (app (mounted Sample.read_only))).
Proof.
  split; [reflexivity | split; [reflexivity | split; [reflexivity |]]].
  vm_compute. discriminate.
Qed.

(** The other half of the discipline: after a successful write the list
    is the one the operation computed. *)
Lemma successful_write_installs (m : Mutation) (w : World (list Todo)) :
  writable (storage w) = true ->
  todos (app (exec (mutate m) w)) = next_todos m (todos (app w)).
Proof. intros Hw. rewrite mutate_todos, Hw. reflexivity. Qed.

(** The theme switch is written the other way round: [setIsDark] comes
    before the write, so the flag advances even when the write is
    rejected, and the rejection is not caught. *)
Lemma handleThemeToggle_advances_first (w : World (list Todo)) :
  isDark (app (exec handleThemeToggle w)) = negb (isDark (app w))
  /\ (writable (storage w) = false ->
      outcome handleThemeToggle w = inl StorageError).
Proof.
  unfold handleThemeToggle, exec, outcome, bind, get_app, setIsDark, set_app,
    setItem. simpl.
  destruct (writable (storage w)); simpl; split; auto; discriminate.
Qed.

(** ** C5: add *)

Lemma truthy_false_iff (s : jsstring) : JsString.truthy s = false <-> s = [].
Proof. destruct s; simpl; split; intros H; congruence. Qed.

Lemma add_todos (text' : jsstring) (now : N) (w : World (list Todo)) :
  todos (app (exec (add text' now) w)) =
  if writable (storage w) then next_todos (Add text' now) (todos (app w))
  else todos (app w).
Proof. exact (mutate_todos (Add text' now) w). Qed.

(** C5, as amended.  For every input text and every current task list: if
    the trimmed text is empty, add(text) leaves the task sequence
    unchanged; otherwise, when the write to the store succeeds, add(text)
    appends exactly one new task with completed=false to the end of the
    sequence, leaving all existing tasks unchanged and increasing the
    length by exactly 1.  The new task carries the trimmed text and the
    clock reading as its id. *)
Theorem add_appends_one (text' : jsstring) (now : N) (w : World (list Todo)) :
  (JsString.trim text' = [] ->
   todos (app (exec (add text' now) w)) = todos (app w))
  /\ (JsString.trim text' <> [] -> writable (storage w) = true ->
      exists t : Todo,
        todos (app (exec (add text' now) w)) = todos (app w) ++ [t]
        /\ completed t = false
        /\ text t = JsString.trim text'
        /\ id t = JsString.of_number now
        /\ List.length (todos (app (exec (add text' now) w)))
           = S (List.length (todos (app w)))).
Proof.
  rewrite add_todos. simpl. split.
  - intros He. apply truthy_false_iff in He. rewrite He.
    destruct (writable (storage w)); reflexivity.
  - intros Hne Hw. rewrite Hw.
    destruct (JsString.truthy (JsString.trim text')) eqn:Ht.
    + eexists. split; [reflexivity |]. simpl.
      repeat split. rewrite length_app. simpl. lia.
    + apply truthy_false_iff in Ht. contradiction.
Qed.

Lemma add_appends_one_witness :
  todos (app (exec (add (js "   ") 1000)
                (with_todos [Sample.buy] Filter.all Sample.healthy)))
  = [Sample.buy]
  /\ exists t : Todo,
       todos (app (exec (add (js " walk ") 1000)
                     (with_todos [Sample.buy] Filter.all Sample.healthy)))
       = [Sample.buy] ++ [t]
       /\ completed t = false
       /\ text t = JsString.trim (js " walk ")
       /\ id t = JsString.of_number 1000
       /\ List.length
            (todos (app (exec (add (js " walk ") 1000)
                           (with_todos [Sample.buy] Filter.all Sample.healthy))))
          = S (List.length [Sample.buy]).
Proof.
  split.
  - apply (proj1 (add_appends_one (js "   ") 1000
                    (with_todos [Sample.buy] Filter.all Sample.healthy))).
    reflexivity.
  - apply (proj2 (add_appends_one (js " walk ") 1000
                    (with_todos [Sample.buy] Filter.all Sample.healthy))).
    + vm_compute. discriminate.
    + reflexivity.
Defined.

(** C5 fails as stated.  The text ["a"] is not empty after trimming, yet
    over a store that rejects the write the list stays empty: no task is
    appended and the length does not grow. *)
Lemma add_without_write_appends_nothing :
  JsString.trim (js "a") <> []
  /\ todos (app (exec (add (js "a") 1000) (mounted Sample.read_only))) = []
  /\ List.length (todos (app (exec (add (js "a") 1000)
                                (mounted Sample.read_only))))
     <> S (List.length (todos (app (mounted Sample.read_only)))).
Proof.
  split; [vm_compute; discriminate | split; [reflexivity |]].
  vm_compute. discriminate.
Qed.

(** ** C6: toggleComplete *)

Lemma lookup_map_toggle (id' : jsstring) (ts : list Todo) (i : nat) (t : Todo) :
  ts !! i = Some t ->
  List.map (fun t => if bool_decide (id t = id') then flip t else t) ts !! i
  = Some (if bool_decide (id t = id') then flip t else t).
Proof.
  revert i. induction ts as [| x ts IH]; intros [| i] H; simpl in *;
    try discriminate.
  - injection H as ->. reflexivity.
  - apply IH. exact H.
Qed.

Lemma map_toggle_absent (id' : jsstring) (ts : list Todo) :
  (forall t, In t ts -> id t <> id') ->
  List.map (fun t => if bool_decide (id t = id') then flip t else t) ts = ts.
Proof.
  induction ts as [| x ts IH]; intros H; simpl; [reflexivity |].
  rewrite IH by (intros t Ht; apply H; right; exact Ht).
  rewrite bool_decide_false by (apply H; left; reflexivity).
  reflexivity.
Qed.

Lemma toggleComplete_todos (id' : jsstring) (w : World (list Todo)) :
  todos (app (exec (toggleComplete id') w)) =
  if writable (storage w)
  then List.map (fun t => if bool_decide (id t = id') then flip t else t)
         (todos (app w))
  else todos (app w).
Proof. exact (mutate_todos (ToggleComplete id') w). Qed.

(** C6, as amended.  For every task list and every id: if a task with
    that id exists and the write to the store succeeds, toggleComplete(id)
    replaces it with a copy whose completed flag is flipped, preserving
    its position and leaving every other task unchanged; if no task has
    that id, toggleComplete(id) leaves the task list unchanged (a no-op,
    not an error). *)
Theorem toggleComplete_flips_in_place
  (id' : jsstring) (w : World (list Todo)) :
  (writable (storage w) = true ->
   List.length (todos (app (exec (toggleComplete id') w)))
   = List.length (todos (app w))
   /\ forall (i : nat) (t : Todo),
        todos (app w) !! i = Some t ->
        todos (app (exec (toggleComplete id') w)) !! i
        = Some (if bool_decide (id t = id') then flip t else t))
  /\ ((forall t, In t (todos (app w)) -> id t <> id') ->
      todos (app (exec (toggleComplete id') w)) = todos (app w))
  /\ outcome (toggleComplete id') w = inr tt.
Proof.
  rewrite toggleComplete_todos. split; [| split].
  - intros Hw. rewrite Hw. split; [apply length_map |].
    intros i t H. apply lookup_map_toggle. exact H.
  - intros Habs. destruct (writable (storage w)); [| reflexivity].
    apply map_toggle_absent, Habs.
  - unfold toggleComplete, outcome, bind, get_app. simpl.
    apply saveTodos_outcome.
Qed.

Lemma toggleComplete_flips_in_place_witness :
  todos (app (exec (toggleComplete (js "2"))
                (with_todos [Sample.buy; Sample.call] Filter.all
                   Sample.healthy))) !! 1%nat
  = Some (flip Sample.call)
  /\ todos (app (exec (toggleComplete (js "7"))
                   (with_todos [Sample.buy; Sample.call] Filter.all
                      Sample.healthy)))
     = [Sample.buy; Sample.call].
Proof.
  split.
  - apply (proj2 (proj1 (toggleComplete_flips_in_place (js "2")
             (with_todos [Sample.buy; Sample.call] Filter.all Sample.healthy))
             eq_refl) 1%nat Sample.call).
    reflexivity.
  - apply (proj1 (proj2 (toggleComplete_flips_in_place (js "7")
             (with_todos [Sample.buy; Sample.call] Filter.all
                Sample.healthy)))).
    intros t [<- | [<- | []]]; vm_compute; discriminate.
Defined.

(** C6 fails as stated.  The task with id ["1"] exists, yet over a store
    that rejects the write toggleComplete leaves it as it was, not
    flipped. *)
Lemma toggleComplete_without_write_flips_nothing :
  In Sample.buy [Sample.buy]
  /\ id Sample.buy = js "1"
  /\ todos (app (exec (toggleComplete (js "1"))
                   (with_todos [Sample.buy] Filter.all Sample.read_only)))
     = [Sample.buy]
  /\ todos (app (exec (toggleComplete (js "1"))
                   (with_todos [Sample.buy] Filter.all Sample.read_only)))
     <> [flip Sample.buy].
Proof.
  split; [left; reflexivity | split; [reflexivity | split; [reflexivity |]]].
  vm_compute. discriminate.
Qed.

(** ** C7: filtering keeps the order *)

Section Filtering.

Context {A : Type} (p : A -> bool).

Lemma filter_sublist (l : list A) : sublist (List.filter p l) l.
Proof.
  induction l as [| x l IH]; simpl; [constructor |].
  destruct (p x); [apply sublist_skip | apply sublist_cons]; exact IH.
Qed.

Lemma filter_greatest (l k : list A) :
  sublist k l -> Forall (fun x => p x = true) k -> sublist k (List.filter p l).
Proof.
  induction 1 as [| x k l Hs IH | x k l Hs IH]; intros Hall; simpl.
  - constructor.
  - inversion Hall as [| y k' Hy Hk]; subst. rewrite Hy.
    apply sublist_skip, IH, Hk.
  - destruct (p x); [apply sublist_cons |]; apply IH, Hall.
Qed.

End Filtering.

Lemma filteredTodos_by_filter (d : bool) (ts : list Todo) (i : jsstring)
  (f : Filter.t) :
  filteredTodos (mkApp d ts i f) =
  match f with
  | Filter.all => ts
  | Filter.active => List.filter (fun t => negb (completed t)) ts
  | Filter.completed => List.filter (fun t => completed t) ts
  end.
Proof.
  unfold filteredTodos; simpl. destruct f; try reflexivity.
  induction ts as [| t ts IH]; simpl; [reflexivity | now rewrite IH].
Qed.

(** C7.  For every task list, the derived view under filter=active is
    the subsequence of the full list containing exactly the tasks with
    completed==false, in their original relative order: it is a
    subsequence of the list, its members are the members of the list
    that are not completed, and every subsequence of the list made of
    tasks that are not completed is a subsequence of it.  Symmetrically
    for filter=completed; under filter=all the view is the list. *)
Theorem filteredTodos_order_preserving
  (d : bool) (ts : list Todo) (i : jsstring) :
  (sublist (filteredTodos (mkApp d ts i Filter.active)) ts
   /\ (forall t, In t (filteredTodos (mkApp d ts i Filter.active))
                 <-> In t ts /\ completed t = false)
   /\ (forall k, sublist k ts -> Forall (fun t => completed t = false) k ->
                 sublist k (filteredTodos (mkApp d ts i Filter.active))))
  /\ (sublist (filteredTodos (mkApp d ts i Filter.completed)) ts
      /\ (forall t, In t (filteredTodos (mkApp d ts i Filter.completed))
                    <-> In t ts /\ completed t = true)
      /\ (forall k, sublist k ts -> Forall (fun t => completed t = true) k ->
                    sublist k (filteredTodos (mkApp d ts i Filter.completed))))
  /\ filteredTodos (mkApp d ts i Filter.all) = ts.
Proof.
  rewrite !filteredTodos_by_filter. split; [| split; [| reflexivity]].
  - split; [apply filter_sublist | split].
    + intros t. rewrite filter_In, negb_true_iff. reflexivity.
    + intros k Hk Hall. apply filter_greatest; [exact Hk |].
      eapply Forall_impl; [exact Hall |].
      intros t Ht. simpl in Ht. rewrite Ht. reflexivity.
  - split; [apply filter_sublist | split].
    + intros t. rewrite filter_In. reflexivity.
    + intros k Hk Hall. apply filter_greatest; assumption.
Qed.

(** ** C8: the count of active tasks *)

Lemma length_filter_active (ts : list Todo) :
  List.length (List.filter (fun t => negb (completed t)) ts) = count_active ts.
Proof.
  induction ts as [| t ts IH]; simpl; [reflexivity |].
  destruct (completed t); simpl; rewrite IH; reflexivity.
Qed.

(** C8.  For every task list and every current filter value (all,
    active, or completed), activeCount equals the number of tasks with
    completed==false in the full unfiltered list; changing the filter
    never changes activeCount. *)
Theorem activeCount_ignores_filter
  (d : bool) (ts : list Todo) (i : jsstring) (f : Filter.t)
  (w : World (list Todo)) :
  activeCount (mkApp d ts i f) = count_active ts
  /\ activeCount (app (exec (setFilter f) w)) = activeCount (app w)
  /\ activeCount (app (exec (setFilter f) w)) = count_active (todos (app w)).
Proof.
  unfold activeCount; simpl. rewrite !length_filter_active. auto.
Qed.

(** ** C3: ids *)

(** C3 does not hold of the code: the id of a new task is the clock
    reading [Date.now()], and two adds that read the same millisecond
    produce two tasks with one id. *)
Theorem add_same_clock_reading_repeats_id :
  todos (app (run [Add (js "a") 1000; Add (js "b") 1000]
                (mounted Sample.healthy)))
  = [mkTodo (js "1000") (js "a") false; mkTodo (js "1000") (js "b") false]
  /\ ~ NoDup (List.map id
               (todos (app (run [Add (js "a") 1000; Add (js "b") 1000]
                              (mounted Sample.healthy))))).
Proof.
  split; [reflexivity |].
  intros H. vm_compute in H. inversion H as [| x l Hx Hl]; subst.
  apply Hx. constructor.
Qed.

Lemma map_id_toggle (id' : jsstring) (ts : list Todo) :
  List.map id
    (List.map (fun t => if bool_decide (id t = id') then flip t else t) ts)
  = List.map id ts.
Proof.
  induction ts as [| t ts IH]; simpl; [reflexivity |].
  rewrite IH. destruct (bool_decide (id t = id')); reflexivity.
Qed.

Lemma NoDup_map_id_filter (p : Todo -> bool) (ts : list Todo) :
  NoDup (List.map id ts) -> NoDup (List.map id (List.filter p ts)).
Proof.
  induction ts as [| t ts IH]; simpl; intros H; [constructor |].
  inversion H as [| x l Hx Hl]; subst.
  destruct (p t); simpl; [| apply IH, Hl].
  constructor; [| apply IH, Hl].
  rewrite list_elem_of_In, in_map_iff.
  intros (u & Hu & Hin). apply filter_In in Hin as [Hin _].
  apply Hx. rewrite list_elem_of_In, in_map_iff. exists u. auto.
Qed.

Lemma next_todos_NoDup (m : Mutation) (ts : list Todo) :
  NoDup (List.map id ts) -> fresh m ts ->
  NoDup (List.map id (next_todos m ts)).
Proof.
  intros Hnd Hf.
  destruct m as [text' now | id' | id' | data | ]; simpl in *.
  - destruct (JsString.truthy (JsString.trim text')); [| exact Hnd].
    rewrite map_app. simpl. apply NoDup_app. split; [exact Hnd | split].
    + intros x Hx Hx'. apply list_elem_of_In in Hx.
      apply list_elem_of_In in Hx'. destruct Hx' as [<- | []].
      apply Hf, Hx.
    + apply NoDup_singleton.
  - rewrite map_id_toggle. exact Hnd.
  - apply NoDup_map_id_filter, Hnd.
  - exact Hf.
  - apply NoDup_map_id_filter, Hnd.
Qed.

(** What remains of C3: as long as no add reads a clock value that is
    already the id of a task, and no reorder payload repeats an id, ids
    stay unique, whether the writes succeed or not. *)
Lemma ids_unique_while_fresh (ms : list Mutation) (w : World (list Todo)) :
  NoDup (List.map id (todos (app w))) -> all_fresh ms w ->
  NoDup (List.map id (todos (app (run ms w)))).
Proof.
  revert w. induction ms as [| m ms IH]; intros w Hnd Hf; simpl in *.
  - exact Hnd.
  - destruct Hf as [Hm Hr]. apply IH; [| exact Hr].
    rewrite mutate_todos. destruct (writable (storage w)); [| exact Hnd].
    apply next_todos_NoDup; assumption.
Qed.

(** ** C4 and C10: start-up *)

(** The four ways the start-up effect can go. *)
Lemma load_cases (w : World json) :
  load w =
  if readable (storage w) then
    match items (storage w) !! STORAGE_KEY with
    | Some (c :: r) =>
        match Json.parse (c :: r) with
        | Some v =>
            (mkWorld
               (mkApp
                  (if bool_decide
                        (items (storage w) !! THEME_KEY = Some (js "dark"))
                   then true else isDark (app w))
                  v (input (app w)) (filter (app w)))
               (storage w) (console w), inr tt)
        | None =>
            (mkWorld (app w) (storage w) (SyntaxError :: console w), inr tt)
        end
    | _ =>
        (mkWorld
           (mkApp
              (if bool_decide
                    (items (storage w) !! THEME_KEY = Some (js "dark"))
               then true else isDark (app w))
              (todos (app w)) (input (app w)) (filter (app w)))
           (storage w) (console w), inr tt)
    end
  else (mkWorld (app w) (storage w) (StorageError :: console w), inr tt).
Proof.
  destruct w as [[d ts i f] [it r wr] c]. unfold_load. simpl.
  destruct r; [| reflexivity].
  destruct (it !! STORAGE_KEY) as [[| ch blob] |]; simpl.
  - destruct (bool_decide (it !! THEME_KEY = Some (js "dark"))); reflexivity.
  - destruct (Json.parse (ch :: blob)); simpl; [| reflexivity].
    destruct (bool_decide (it !! THEME_KEY = Some (js "dark"))); reflexivity.
  - destruct (bool_decide (it !! THEME_KEY = Some (js "dark"))); reflexivity.
Qed.

Lemma load_outcome (w : World json) : outcome load w = inr tt.
Proof.
  unfold outcome. rewrite load_cases.
  destruct (readable (storage w)); [| reflexivity].
  destruct (items (storage w) !! STORAGE_KEY) as [[| ch blob] |];
    try reflexivity.
  destruct (Json.parse (ch :: blob)); reflexivity.
Qed.

Lemma load_unreadable (w : World json) :
  readable (storage w) = false ->
  exec load w = mkWorld (app w) (storage w) (StorageError :: console w).
Proof. intros H. unfold exec. rewrite load_cases, H. reflexivity. Qed.

Lemma load_absent (w : World json) :
  items (storage w) !! STORAGE_KEY = None ->
  todos (app (exec load w)) = todos (app w).
Proof.
  intros H. unfold exec. rewrite load_cases, H.
  destruct (readable (storage w)); reflexivity.
Qed.

Lemma load_unparsable (w : World json) (blob : jsstring) :
  items (storage w) !! STORAGE_KEY = Some blob ->
  Json.parse blob = None ->
  todos (app (exec load w)) = todos (app w).
Proof.
  intros H Hp. unfold exec. rewrite load_cases, H.
  destruct (readable (storage w)); [| reflexivity].
  destruct blob as [| ch blob]; [reflexivity |].
  rewrite Hp. reflexivity.
Qed.

Lemma load_parsed (w : World json) (blob : jsstring) (v : json) :
  readable (storage w) = true ->
  items (storage w) !! STORAGE_KEY = Some blob ->
  Json.parse blob = Some v ->
  todos (app (exec load w)) = v.
Proof.
  intros Hr H Hp. unfold exec. rewrite load_cases, Hr, H.
  destruct blob as [| ch blob]; [discriminate Hp |].
  rewrite Hp. reflexivity.
Qed.

Lemma load_syntax_error (w : World json) (blob : jsstring) :
  readable (storage w) = true ->
  items (storage w) !! STORAGE_KEY = Some blob ->
  blob <> [] ->
  Json.parse blob = None ->
  exec load w = mkWorld (app w) (storage w) (SyntaxError :: console w).
Proof.
  intros Hr H Hne Hp. unfold exec. rewrite load_cases, Hr, H.
  destruct blob as [| ch blob]; [contradiction |].
  rewrite Hp. reflexivity.
Qed.

(** The part of the fall-back that is there: the start-up effect never
    lets an exception out, and over a blob that is absent or is not
    valid JSON the task list stays the empty sequence. *)
Lemma load_soft_on_missing_or_invalid (s : AsyncStorage) :
  outcome load (startup s) = inr tt
  /\ (items s !! STORAGE_KEY = None ->
      todos (app (exec load (startup s))) = JArr [])
  /\ (forall blob, items s !! STORAGE_KEY = Some blob ->
                   Json.parse blob = None ->
                   todos (app (exec load (startup s))) = JArr []).
Proof.
  split; [apply load_outcome | split].
  - intros H. apply (load_absent (startup s)). exact H.
  - intros blob H Hp. apply (load_unparsable (startup s) blob H Hp).
Qed.

(** C4 does not hold of the code: the fall-back to the empty list
    covers a [SyntaxError] of [JSON.parse] only.  The stored text [{}]
    is valid JSON but not a task array; the effect hands the parsed
    object to [setTodos], so [todos] is not the empty sequence, and the
    render that follows calls [todos.filter] on a value that has no such
    function. *)
Theorem load_installs_wrong_shape :
  items Sample.holds_object !! STORAGE_KEY = Some (js "{}")
  /\ Json.parse (js "{}") = Some (JObj [])
  /\ todos_of_json (JObj []) = None
  /\ todos (app (exec load (startup Sample.holds_object))) = JObj []
  /\ todos (app (exec load (startup Sample.holds_object))) <> JArr []
  /\ filter_callable (todos (app (exec load (startup Sample.holds_object))))
     = false.
Proof.
  split; [reflexivity | split; [reflexivity | split; [reflexivity |]]].
  split; [reflexivity | split; [vm_compute; discriminate | reflexivity]].
Qed.

(** C10, as amended.  For every startup in which the stored blob at the
    task-list key is present, not the empty string, and fails to parse,
    load() also skips restoring the theme flag: isDark remains false
    even when the theme key holds the value "dark", because the parse
    exception leaves the try block before the theme check. *)
Theorem load_parse_error_skips_theme (s : AsyncStorage) (blob : jsstring) :
  items s !! STORAGE_KEY = Some blob ->
  blob <> [] ->
  Json.parse blob = None ->
  isDark (app (exec load (startup s))) = false.
Proof.
  intros H Hne Hp. destruct (readable s) eqn:Hr.
  - rewrite (load_syntax_error (startup s) blob Hr H Hne Hp). reflexivity.
  - rewrite (load_unreadable (startup s) Hr). reflexivity.
Qed.

Lemma load_parse_error_skips_theme_witness :
  items Sample.holds_garbage !! THEME_KEY = Some (js "dark")
  /\ isDark (app (exec load (startup Sample.holds_garbage))) = false.
Proof.
  split; [reflexivity |].
  apply (load_parse_error_skips_theme Sample.holds_garbage (js "[{oops")).
  - reflexivity.
  - vm_compute. discriminate.
  - reflexivity.
Defined.

(** C10 fails as stated.  The empty string is present under the key and
    is not valid JSON, but it is falsy: [JSON.parse] is never called on
    it, nothing is thrown, and the theme is restored. *)
Lemma load_empty_blob_restores_theme :
  items Sample.holds_empty !! STORAGE_KEY = Some []
  /\ Json.parse [] = None
  /\ items Sample.holds_empty !! THEME_KEY = Some (js "dark")
  /\ isDark (app (exec load (startup Sample.holds_empty))) = true.
Proof. repeat split. Qed.

(** ** C9: the stored form round-trips *)

(** *** String literals *)

Lemma hex_val_digit (d : N) : d < 16 -> Json.hex_val (Json.hex_digit d) = Some d.
Proof.
  intros H. unfold Json.hex_val, Json.hex_digit, Json.is_digit.
  destruct (N.ltb_spec d 10).
  - replace (48 <=? 48 + d) with true by (symmetry; apply N.leb_le; lia).
    replace (48 + d <=? 57) with true by (symmetry; apply N.leb_le; lia).
    simpl. f_equal. lia.
  - replace (48 <=? 87 + d) with true by (symmetry; apply N.leb_le; lia).
    replace (87 + d <=? 57) with false by (symmetry; apply N.leb_gt; lia).
    replace (97 <=? 87 + d) with true by (symmetry; apply N.leb_le; lia).
    replace (87 + d <=? 102) with true by (symmetry; apply N.leb_le; lia).
    simpl. f_equal. lia.
Qed.

Lemma hex4_unicode_escape (c : N) :
  c < 65536 ->
  Json.hex4 (Json.hex_digit (c / 4096 mod 16)) (Json.hex_digit (c / 256 mod 16))
    (Json.hex_digit (c / 16 mod 16)) (Json.hex_digit (c mod 16)) = Some c.
Proof.
  intros H. unfold Json.hex4.
  rewrite !hex_val_digit by (apply N.mod_lt; discriminate).
  f_equal.
  assert (H1 : c / 4096 < 16) by (apply N.Div0.div_lt_upper_bound; lia).
  rewrite (N.mod_small (c / 4096) 16) by exact H1.
  pose proof (N.div_mod c 16 ltac:(discriminate)) as E0.
  pose proof (N.div_mod (c / 16) 16 ltac:(discriminate)) as E1.
  pose proof (N.div_mod (c / 256) 16 ltac:(discriminate)) as E2.
  rewrite (N.Div0.div_div c 16 16) in E1.
  replace (c / 256 / 16) with (c / 4096) in E2
    by (rewrite N.Div0.div_div; reflexivity).
  change (16 * 16) with 256 in E1.
  replace (c / 256) with (c / 16 / 16)
    by (rewrite N.Div0.div_div; reflexivity).
  replace (c / 256) with (c / 16 / 16) in E2
    by (rewrite N.Div0.div_div; reflexivity).
  replace (c / 256) with (c / 16 / 16) in E1
    by (rewrite N.Div0.div_div; reflexivity).
  lia.
Qed.

Lemma parse_chars_plain (c : N) (tail : jsstring) :
  c <> 34 -> c <> 92 -> 32 <= c ->
  Json.parse_chars (c :: tail) = Json.push c (Json.parse_chars tail).
Proof.
  intros H1 H2 H3. simpl.
  destruct (N.eqb_spec c 34); [contradiction |].
  destruct (N.eqb_spec c 92); [contradiction |].
  destruct (N.ltb_spec c 32); [lia | reflexivity].
Qed.

Lemma parse_chars_unicode_escape (c : N) (tail : jsstring) :
  c < 65536 ->
  Json.parse_chars (Json.unicode_escape c ++ tail)
  = Json.push c (Json.parse_chars tail).
Proof.
  intros H. unfold Json.unicode_escape.
  change (Json.parse_chars (_ ++ tail)) with
    (match Json.hex4 (Json.hex_digit (c / 4096 mod 16))
             (Json.hex_digit (c / 256 mod 16))
             (Json.hex_digit (c / 16 mod 16)) (Json.hex_digit (c mod 16)) with
     | Some u => Json.push u (Json.parse_chars tail)
     | None => None
     end).
  rewrite hex4_unicode_escape by exact H. reflexivity.
Qed.

Lemma parse_chars_quote_unit (c : N) (tail : jsstring) :
  Json.parse_chars (Json.quote_unit c ++ tail)
  = Json.push c (Json.parse_chars tail).
Proof.
  unfold Json.quote_unit.
  destruct (N.eqb_spec c 8) as [-> |]; [reflexivity |].
  destruct (N.eqb_spec c 9) as [-> |]; [reflexivity |].
  destruct (N.eqb_spec c 10) as [-> |]; [reflexivity |].
  destruct (N.eqb_spec c 12) as [-> |]; [reflexivity |].
  destruct (N.eqb_spec c 13) as [-> |]; [reflexivity |].
  destruct (N.eqb_spec c 34) as [-> |]; [reflexivity |].
  destruct (N.eqb_spec c 92) as [-> |]; [reflexivity |].
  destruct ((c <? 32) || Json.is_high_surrogate c || Json.is_low_surrogate c)
    eqn:E.
  - apply parse_chars_unicode_escape.
    unfold Json.is_high_surrogate, Json.is_low_surrogate in E.
    apply orb_true_iff in E as [E | E];
      [apply orb_true_iff in E as [E | E] |].
    + apply N.ltb_lt in E. lia.
    + apply andb_true_iff in E as [_ E]. apply N.leb_le in E. lia.
    + apply andb_true_iff in E as [_ E]. apply N.leb_le in E. lia.
  - apply orb_false_iff in E as [E _]. apply orb_false_iff in E as [E _].
    apply N.ltb_ge in E. simpl app. apply parse_chars_plain; assumption.
Qed.

Lemma high_surrogate_plain (c : N) :
  Json.is_high_surrogate c = true -> c <> 34 /\ c <> 92 /\ 32 <= c /\ c < 65536.
Proof.
  unfold Json.is_high_surrogate. intros H.
  apply andb_true_iff in H as [H1 H2].
  apply N.leb_le in H1. apply N.leb_le in H2. lia.
Qed.

Lemma low_surrogate_plain (c : N) :
  Json.is_low_surrogate c = true -> c <> 34 /\ c <> 92 /\ 32 <= c.
Proof.
  unfold Json.is_low_surrogate. intros H.
  apply andb_true_iff in H as [H1 H2].
  apply N.leb_le in H1. apply N.leb_le in H2. lia.
Qed.

Lemma quote_body_cons (c : N) (r : jsstring) :
  Json.quote_body (c :: r) =
  if Json.is_high_surrogate c then
    match r with
    | d :: r' =>
        if Json.is_low_surrogate d then c :: d :: Json.quote_body r'
        else Json.unicode_escape c ++ Json.quote_body r
    | [] => Json.unicode_escape c
    end
  else Json.quote_unit c ++ Json.quote_body r.
Proof. reflexivity. Qed.

(** Reading back the body of a quoted string gives the string, and stops
    after the closing quote. *)
Lemma parse_chars_quote_body (s rest : jsstring) :
  Json.parse_chars (Json.quote_body s ++ 34 :: rest) = Some (s, rest).
Proof.
  remember (List.length s) as n eqn:Hn.
  revert s Hn. induction n as [n IH] using lt_wf_ind. intros s Hn.
  destruct s as [| c r]; [reflexivity |].
  rewrite quote_body_cons.
  destruct (Json.is_high_surrogate c) eqn:Hc; cbv iota.
  - destruct (high_surrogate_plain c Hc) as (H1 & H2 & H3 & H4).
    destruct r as [| d r']; cbv iota.
    + rewrite parse_chars_unicode_escape by exact H4. reflexivity.
    + destruct (Json.is_low_surrogate d) eqn:Hd; cbv iota.
      * destruct (low_surrogate_plain d Hd) as (D1 & D2 & D3).
        change ((c :: d :: Json.quote_body r') ++ 34 :: rest)
          with (c :: d :: (Json.quote_body r' ++ 34 :: rest)).
        rewrite parse_chars_plain by assumption.
        rewrite parse_chars_plain by assumption.
        rewrite (IH (List.length r')) by (subst n; simpl; auto; lia).
        reflexivity.
      * rewrite <- app_assoc.
        rewrite parse_chars_unicode_escape by exact H4.
        rewrite (IH (List.length (d :: r'))) by (subst n; simpl; auto; lia).
        reflexivity.
  - rewrite <- app_assoc. rewrite parse_chars_quote_unit.
    rewrite (IH (List.length r)) by (subst n; simpl; auto; lia).
    reflexivity.
Qed.

(** *** Values *)

Lemma parse_value_quote (f : nat) (body : jsstring) :
  Json.parse_value (S f) (34 :: body) =
  match Json.parse_chars body with
  | Some (cs, rest) => Some (JStr cs, rest)
  | None => None
  end.
Proof. reflexivity. Qed.

Lemma parse_value_string (f : nat) (s rest : jsstring) :
  Json.parse_value (S f) (34 :: Json.quote_body s ++ 34 :: rest)
  = Some (JStr s, rest).
Proof. rewrite parse_value_quote, parse_chars_quote_body. reflexivity. Qed.

Lemma parse_value_bool (f : nat) (b : bool) (rest : jsstring) :
  Json.parse_value (S f) (stringify_bool b ++ rest) = Some (JBool b, rest).
Proof. destruct b; reflexivity. Qed.

Lemma parse_members_key (f : nat) (body : jsstring) :
  Json.parse_members (S f) (34 :: body) =
  match Json.parse_chars body with
  | None => None
  | Some (k, rest) =>
      match Json.skip_ws rest with
      | [] => None
      | d :: r1 =>
          if d =? 58 then
            match Json.parse_value f r1 with
            | None => None
            | Some (v, rest1) =>
                match Json.skip_ws rest1 with
                | [] => None
                | e :: r2 =>
                    if e =? 44 then
                      match Json.parse_members f r2 with
                      | Some (ms, rest2) => Some ((k, v) :: ms, rest2)
                      | None => None
                      end
                    else if e =? 125 then Some ([(k, v)], r2)
                    else None
                end
            end
          else None
      end
  end.
Proof. reflexivity. Qed.

(** A member whose value is a string, followed by a comma. *)
Lemma parse_members_string (f : nat) (k s more : jsstring) :
  Json.parse_members (S (S f))
    (34 :: Json.quote_body k ++ 34 :: 58 :: 34
        :: Json.quote_body s ++ 34 :: 44 :: more) =
  match Json.parse_members (S f) more with
  | Some (ms, rest) => Some ((k, JStr s) :: ms, rest)
  | None => None
  end.
Proof.
  rewrite parse_members_key, parse_chars_quote_body.
  change (Json.skip_ws (58 :: 34 :: Json.quote_body s ++ 34 :: 44 :: more))
    with (58 :: 34 :: Json.quote_body s ++ 34 :: 44 :: more).
  change (58 =? 58) with true. cbv iota.
  rewrite parse_value_string. reflexivity.
Qed.

(** The last member, a boolean, followed by the closing brace. *)
Lemma parse_members_bool (f : nat) (k : jsstring) (b : bool) (rest : jsstring) :
  Json.parse_members (S (S f))
    (34 :: Json.quote_body k ++ 34 :: 58 :: stringify_bool b ++ 125 :: rest)
  = Some ([(k, JBool b)], rest).
Proof.
  rewrite parse_members_key, parse_chars_quote_body.
  change (Json.skip_ws (58 :: stringify_bool b ++ 125 :: rest))
    with (58 :: stringify_bool b ++ 125 :: rest).
  change (58 =? 58) with true. cbv iota.
  rewrite parse_value_bool. reflexivity.
Qed.

Lemma parse_value_object (f : nat) (body : jsstring) :
  Json.parse_value (S f) (123 :: 34 :: body) =
  match Json.parse_members f (34 :: body) with
  | Some (ms, rest) => Some (JObj ms, rest)
  | None => None
  end.
Proof. reflexivity. Qed.

(** The text of a task, flattened. *)
Lemma stringify_todo_app (t : Todo) (rest : jsstring) :
  stringify_todo t ++ rest =
  123 :: 34 :: Json.quote_body key_id ++ 34 :: 58 :: 34
      :: Json.quote_body (id t) ++ 34 :: 44
      :: 34 :: Json.quote_body key_text ++ 34 :: 58 :: 34
      :: Json.quote_body (text t) ++ 34 :: 44
      :: 34 :: Json.quote_body key_completed ++ 34 :: 58
      :: stringify_bool (completed t) ++ 125 :: rest.
Proof.
  unfold stringify_todo, Json.quote.
  repeat (rewrite <- ?app_assoc, <- ?app_comm_cons; cbn [app]).
  reflexivity.
Qed.

Lemma parse_value_todo (f : nat) (t : Todo) (rest : jsstring) :
  Json.parse_value (5 + f) (stringify_todo t ++ rest)
  = Some (todo_to_json t, rest).
Proof.
  rewrite stringify_todo_app.
  change (5 + f)%nat with (S (S (S (S (S f))))).
  rewrite parse_value_object.
  rewrite parse_members_string, parse_members_string, parse_members_bool.
  reflexivity.
Qed.

(** *** Arrays of tasks *)

Lemma parse_elements_eq (f : nat) (s : jsstring) :
  Json.parse_elements (S f) s =
  match Json.parse_value f s with
  | None => None
  | Some (v, rest) =>
      match Json.skip_ws rest with
      | [] => None
      | c :: r =>
          if c =? 44 then
            match Json.parse_elements f r with
            | Some (vs, rest') => Some (v :: vs, rest')
            | None => None
            end
          else if c =? 93 then Some ([v], r)
          else None
      end
  end.
Proof. reflexivity. Qed.

Lemma parse_value_array (f : nat) (body : jsstring) :
  Json.parse_value (S f) (91 :: 123 :: body) =
  match Json.parse_elements f (123 :: body) with
  | Some (vs, rest) => Some (JArr vs, rest)
  | None => None
  end.
Proof. reflexivity. Qed.

Lemma join_comma_cons2 (x y : jsstring) (l : list jsstring) :
  join_comma (x :: y :: l) = x ++ 44 :: join_comma (y :: l).
Proof. reflexivity. Qed.

Lemma parse_elements_todos (ts : list Todo) :
  forall (t : Todo) (f : nat) (rest : jsstring),
    Json.parse_elements (6 + List.length ts + f)
      (join_comma (List.map stringify_todo (t :: ts)) ++ 93 :: rest)
    = Some (List.map todo_to_json (t :: ts), rest).
Proof.
  induction ts as [| t' ts IH]; intros t f rest.
  - change (6 + List.length (@nil Todo) + f)%nat with (S (5 + f)).
    rewrite parse_elements_eq. simpl join_comma.
    rewrite parse_value_todo. reflexivity.
  - change (6 + List.length (t' :: ts) + f)%nat
      with (S (5 + (S (List.length ts + f)))).
    rewrite parse_elements_eq.
    change (List.map stringify_todo (t :: t' :: ts))
      with (stringify_todo t :: stringify_todo t'
              :: List.map stringify_todo ts).
    rewrite join_comma_cons2, <- app_assoc, <- app_comm_cons.
    rewrite parse_value_todo.
    change (Json.skip_ws (44 :: ?x)) with (44 :: x).
    change (44 =? 44) with true. cbv iota.
    change (5 + S (List.length ts + f))%nat with (6 + List.length ts + f)%nat.
    change (stringify_todo t' :: List.map stringify_todo ts)
      with (List.map stringify_todo (t' :: ts)).
    rewrite IH. reflexivity.
Qed.

Lemma length_stringify_todo (t : Todo) : (2 <= List.length (stringify_todo t))%nat.
Proof.
  rewrite <- (app_nil_r (stringify_todo t)), stringify_todo_app.
  simpl. lia.
Qed.

Lemma length_join_comma (ts : list Todo) :
  (2 * List.length ts <= List.length (join_comma (List.map stringify_todo ts)))%nat.
Proof.
  induction ts as [| t ts IH]; [simpl; lia |].
  destruct ts as [| t' ts].
  - simpl join_comma. pose proof (length_stringify_todo t). simpl. lia.
  - change (List.map stringify_todo (t :: t' :: ts))
      with (stringify_todo t :: List.map stringify_todo (t' :: ts)).
    change (List.map stringify_todo (t' :: ts))
      with (stringify_todo t' :: List.map stringify_todo ts) at 1.
    rewrite join_comma_cons2, length_app.
    pose proof (length_stringify_todo t).
    change (stringify_todo t' :: List.map stringify_todo ts)
      with (List.map stringify_todo (t' :: ts)).
    simpl List.length in *. lia.
Qed.

Lemma parse_stringify (ts : list Todo) :
  Json.parse (JSON_stringify ts) = Some (todos_to_json ts).
Proof.
  destruct ts as [| t ts]; [reflexivity |].
  unfold Json.parse, todos_to_json.
  pose proof (length_join_comma (t :: ts)) as Hlen.
  assert (Hfuel : exists f,
             (2 * List.length (JSON_stringify (t :: ts)) + 2
              = S (6 + List.length ts + f))%nat).
  { unfold JSON_stringify. rewrite !length_app.
    remember (List.length (join_comma (List.map stringify_todo (t :: ts))))
      as n eqn:Hn. clear Hn.
    change (List.length (t :: ts)) with (S (List.length ts)) in Hlen.
    change (List.length [91]) with 1%nat.
    change (List.length [93]) with 1%nat.
    exists (2 * (1 + (n + 1)) + 2 - S (6 + List.length ts))%nat.
    lia. }
  destruct Hfuel as [f ->].
  unfold JSON_stringify.
  assert (Hhead : exists body,
             join_comma (List.map stringify_todo (t :: ts)) ++ [93]
             = 123 :: body).
  { destruct ts as [| t' ts].
    - simpl join_comma. rewrite stringify_todo_app. eexists. reflexivity.
    - change (List.map stringify_todo (t :: t' :: ts))
        with (stringify_todo t :: stringify_todo t'
                :: List.map stringify_todo ts).
      rewrite join_comma_cons2, <- app_assoc, stringify_todo_app.
      eexists. reflexivity. }
  destruct Hhead as [body Hbody].
  change ([91] ++ join_comma (List.map stringify_todo (t :: ts)) ++ [93])
    with (91 :: (join_comma (List.map stringify_todo (t :: ts)) ++ [93])).
  rewrite Hbody, parse_value_array, <- Hbody.
  rewrite parse_elements_todos. reflexivity.
Qed.

Lemma todo_of_to_json (t : Todo) : todo_of_json (todo_to_json t) = Some t.
Proof. destruct t as [i x c]. reflexivity. Qed.

Lemma todos_of_to_json (ts : list Todo) :
  todos_of_json (todos_to_json ts) = Some ts.
Proof.
  unfold todos_of_json, todos_to_json.
  induction ts as [| t ts IH]; [reflexivity |].
  change (todos_of_elements (List.map todo_to_json (t :: ts)))
    with (match todo_of_json (todo_to_json t),
                todos_of_elements (List.map todo_to_json ts) with
          | Some t0, Some ts0 => Some (t0 :: ts0)
          | _, _ => None
          end).
  rewrite todo_of_to_json, IH. reflexivity.
Qed.

(** C9.  For every task list, serializing it to the stored string form
    and deserializing that string yields a task list structurally equal
    to the original: [JSON.parse] accepts the text [JSON.stringify]
    wrote and returns the array of the same tasks, which read back at
    type [Todo[]] is the original list (same length, same order, and
    identical id, text, and completed fields in every position). *)
Theorem stored_form_round_trip (ts : list Todo) :
  Json.parse (JSON_stringify ts) = Some (todos_to_json ts)
  /\ todos_of_json (todos_to_json ts) = Some ts.
Proof. split; [apply parse_stringify | apply todos_of_to_json]. Qed.

(** The same through the handlers: what [saveTodos] wrote, the next
    start-up reads back. *)
Lemma save_then_load (ts : list Todo) (w : World (list Todo)) :
  writable (storage w) = true ->
  readable (storage w) = true ->
  todos (app (exec load (startup (storage (exec (saveTodos ts) w)))))
  = todos_to_json ts.
Proof.
  intros Hw Hr. unfold exec at 2. rewrite saveTodos_eq, Hw.
  apply (load_parsed _ (JSON_stringify ts)).
  - exact Hr.
  - simpl. apply lookup_insert_eq.
  - apply parse_stringify.
Qed.

(** ** The parser never runs out of fuel *)

Lemma skip_ws_length (s : jsstring) :
  (List.length (Json.skip_ws s) <= List.length s)%nat.
Proof.
  induction s as [| c r IH]; simpl; [lia |].
  destruct (Json.is_ws c); simpl; lia.
Qed.

Lemma push_length (c : N) (r : option (jsstring * jsstring))
  (cs rest : jsstring) :
  Json.push c r = Some (cs, rest) ->
  exists cs', r = Some (cs', rest).
Proof.
  destruct r as [[cs' rest'] |]; simpl; intros H; [| discriminate].
  injection H as _ <-. eauto.
Qed.

Lemma parse_chars_length (s : jsstring) :
  forall cs rest,
    Json.parse_chars s = Some (cs, rest) ->
    (List.length rest < List.length s)%nat.
Proof.
  remember (List.length s) as n eqn:Hn.
  revert s Hn. induction n as [n IH] using lt_wf_ind. intros s Hn cs rest H.
  destruct s as [| c r]; [discriminate H |].
  simpl in H. simpl in Hn.
  destruct (c =? 34).
  { injection H as _ <-. lia. }
  destruct (c =? 92).
  - destruct r as [| e r1]; [discriminate H |].
    destruct (e =? 117).
    + destruct r1 as [| h1 [| h2 [| h3 [| h4 r2]]]]; try discriminate H.
      destruct (Json.hex4 h1 h2 h3 h4); [| discriminate H].
      apply push_length in H as [cs' H].
      apply (IH (List.length r2)) in H; simpl in *; lia.
    + destruct (Json.unescape e); [| discriminate H].
      apply push_length in H as [cs' H].
      apply (IH (List.length r1)) in H; simpl in *; lia.
  - destruct (c <? 32); [discriminate H |].
    apply push_length in H as [cs' H].
    apply (IH (List.length r)) in H; simpl in *; lia.
Qed.

Lemma span_digits_length (s : jsstring) :
  (List.length (snd (Json.span_digits s)) <= List.length s)%nat.
Proof.
  induction s as [| c r IH]; simpl; [lia |].
  destruct (Json.is_digit c); simpl; [| lia].
  destruct (Json.span_digits r) as [ds rest]. simpl in *. lia.
Qed.

Lemma parse_int_length (s i rest : jsstring) :
  Json.parse_int s = Some (i, rest) ->
  (List.length rest < List.length s)%nat.
Proof.
  destruct s as [| c r]; simpl; [discriminate |].
  destruct (c =? 48).
  { intros H. injection H as _ <-. lia. }
  destruct (Json.is_digit c); [| discriminate].
  pose proof (span_digits_length r) as Hl.
  destruct (Json.span_digits r) as [ds rest']. simpl in Hl.
  intros H. injection H as _ <-. lia.
Qed.

Lemma parse_frac_length (s f rest : jsstring) :
  Json.parse_frac s = Some (f, rest) ->
  (List.length rest <= List.length s)%nat.
Proof.
  destruct s as [| c r]; simpl.
  { intros H. injection H as _ <-. simpl. lia. }
  destruct (c =? 46).
  - pose proof (span_digits_length r) as Hl.
    destruct (Json.span_digits r) as [[| d ds] rest']; [discriminate |].
    simpl in Hl. intros H. injection H as _ <-. lia.
  - intros H. injection H as _ <-. simpl. lia.
Qed.

Lemma parse_exp_length (s e rest : jsstring) :
  Json.parse_exp s = Some (e, rest) ->
  (List.length rest <= List.length s)%nat.
Proof.
  destruct s as [| c r]; simpl.
  { intros H. injection H as _ <-. simpl. lia. }
  destruct ((c =? 101) || (c =? 69)).
  - destruct r as [| d r'].
    + simpl. discriminate.
    + destruct ((d =? 43) || (d =? 45)).
      * pose proof (span_digits_length r') as Hl.
        destruct (Json.span_digits r') as [[| x ds] rest']; [discriminate |].
        simpl in Hl. intros H. injection H as _ <-. simpl. lia.
      * pose proof (span_digits_length (d :: r')) as Hl.
        destruct (Json.span_digits (d :: r')) as [[| x ds] rest'];
          [discriminate |].
        simpl in Hl. intros H. injection H as _ <-. simpl. lia.
  - intros H. injection H as _ <-. simpl. lia.
Qed.

Lemma parse_number_length (s lexeme rest : jsstring) :
  Json.parse_number s = Some (lexeme, rest) ->
  (List.length rest < List.length s)%nat.
Proof.
  unfold Json.parse_number. intros H.
  assert (Hsign : forall s1 : jsstring,
             (List.length s1 <= List.length s)%nat ->
             match Json.parse_int s1 with
             | Some (i, s2) =>
                 match Json.parse_frac s2 with
                 | Some (f, s3) =>
                     match Json.parse_exp s3 with
                     | Some (e, s4) => Some (s4 : jsstring)
                     | None => None
                     end
                 | None => None
                 end
             | None => None
             end = Some rest ->
             (List.length rest < List.length s)%nat).
  { intros s1 Hs1 H1.
    destruct (Json.parse_int s1) as [[i s2] |] eqn:Hi; [| discriminate].
    destruct (Json.parse_frac s2) as [[f s3] |] eqn:Hf; [| discriminate].
    destruct (Json.parse_exp s3) as [[e s4] |] eqn:He; [| discriminate].
    injection H1 as <-.
    apply parse_int_length in Hi. apply parse_frac_length in Hf.
    apply parse_exp_length in He. lia. }
  destruct s as [| c r].
  - simpl in H. discriminate.
  - destruct (c =? 45).
    + apply (Hsign r); [simpl; lia |].
      destruct (Json.parse_int r) as [[i s2] |]; [| discriminate].
      destruct (Json.parse_frac s2) as [[f s3] |]; [| discriminate].
      destruct (Json.parse_exp s3) as [[e s4] |]; [| discriminate].
      injection H as _ <-. reflexivity.
    + apply (Hsign (c :: r)); [lia |].
      destruct (Json.parse_int (c :: r)) as [[i s2] |]; [| discriminate].
      destruct (Json.parse_frac s2) as [[f s3] |]; [| discriminate].
      destruct (Json.parse_exp s3) as [[e s4] |]; [| discriminate].
      injection H as _ <-. reflexivity.
Qed.

Lemma strip_prefix_length (p s rest : jsstring) :
  Json.strip_prefix p s = Some rest ->
  (List.length rest <= List.length s)%nat.
Proof.
  revert s. induction p as [| a p IH]; intros s; simpl.
  - intros H. injection H as <-. lia.
  - destruct s as [| b s']; [discriminate |].
    destruct (a =? b); [| discriminate].
    intros H. apply IH in H. simpl. lia.
Qed.

Lemma literal_length (p : jsstring) (v v' : json) (s rest : jsstring) :
  Json.literal p v s = Some (v', rest) ->
  (List.length rest <= List.length s)%nat.
Proof.
  unfold Json.literal.
  destruct (Json.strip_prefix p s) as [r |] eqn:H; [| discriminate].
  intros E. injection E as _ <-. eapply strip_prefix_length, H.
Qed.

Lemma parse_value_eq (f : nat) (s : jsstring) :
  Json.parse_value (S f) s =
  match Json.skip_ws s with
  | [] => None
  | c :: r =>
      if c =? 34 then
        match Json.parse_chars r with
        | Some (cs, rest) => Some (JStr cs, rest)
        | None => None
        end
      else if c =? 91 then
        match Json.skip_ws r with
        | [] => None
        | d :: r' =>
            if d =? 93 then Some (JArr [], r')
            else
              match Json.parse_elements f r with
              | Some (vs, rest) => Some (JArr vs, rest)
              | None => None
              end
        end
      else if c =? 123 then
        match Json.skip_ws r with
        | [] => None
        | d :: r' =>
            if d =? 125 then Some (JObj [], r')
            else
              match Json.parse_members f r with
              | Some (ms, rest) => Some (JObj ms, rest)
              | None => None
              end
        end
      else if c =? 116 then Json.literal [114; 117; 101] (JBool true) r
      else if c =? 102 then Json.literal [97; 108; 115; 101] (JBool false) r
      else if c =? 110 then Json.literal [117; 108; 108] JNull r
      else
        match Json.parse_number (c :: r) with
        | Some (lexeme, rest) => Some (JNum lexeme, rest)
        | None => None
        end
  end.
Proof. reflexivity. Qed.

Lemma parse_members_eq (f : nat) (s : jsstring) :
  Json.parse_members (S f) s =
  match Json.skip_ws s with
  | [] => None
  | c :: r =>
      if c =? 34 then
        match Json.parse_chars r with
        | None => None
        | Some (k, rest) =>
            match Json.skip_ws rest with
            | [] => None
            | d :: r1 =>
                if d =? 58 then
                  match Json.parse_value f r1 with
                  | None => None
                  | Some (v, rest1) =>
                      match Json.skip_ws rest1 with
                      | [] => None
                      | e :: r2 =>
                          if e =? 44 then
                            match Json.parse_members f r2 with
                            | Some (ms, rest2) => Some ((k, v) :: ms, rest2)
                            | None => None
                            end
                          else if e =? 125 then Some ([(k, v)], r2)
                          else None
                      end
                  end
                else None
            end
        end
      else None
  end.
Proof. reflexivity. Qed.

Lemma parse_value_fuel_step (f : nat) :
  enough_fuel Json.parse_elements 1 f ->
  enough_fuel Json.parse_members 1 f ->
  enough_fuel Json.parse_value 0 (S f).
Proof.
  intros IHe IHm s v rest H. rewrite parse_value_eq in H.
  pose proof (skip_ws_length s) as Hws.
  destruct (Json.skip_ws s) as [| c r] eqn:Hs; [discriminate H |].
  simpl in Hws.
  destruct (c =? 34) eqn:E1.
  { destruct (Json.parse_chars r) as [[cs rest'] |] eqn:Hc; [| discriminate H].
    injection H as <- <-. pose proof (parse_chars_length _ _ _ Hc) as Hl.
    split; [lia |]. intros f' Hf'. destruct f' as [| f']; [lia |].
    rewrite parse_value_eq, Hs, E1, Hc. reflexivity. }
  destruct (c =? 91) eqn:E2.
  { pose proof (skip_ws_length r) as Hws2.
    destruct (Json.skip_ws r) as [| d r'] eqn:Hr; [discriminate H |].
    simpl in Hws2.
    destruct (d =? 93) eqn:E3.
    - injection H as <- <-. split; [lia |].
      intros f' Hf'. destruct f' as [| f']; [lia |].
      rewrite parse_value_eq, Hs, E1, E2, Hr, E3. reflexivity.
    - destruct (Json.parse_elements f r) as [[vs rest'] |] eqn:He;
        [| discriminate H].
      injection H as <- <-. destruct (IHe _ _ _ He) as [Hl Hf].
      split; [lia |]. intros f' Hf'. destruct f' as [| f']; [lia |].
      rewrite parse_value_eq, Hs, E1, E2, Hr, E3, Hf by lia. reflexivity. }
  destruct (c =? 123) eqn:E3.
  { pose proof (skip_ws_length r) as Hws2.
    destruct (Json.skip_ws r) as [| d r'] eqn:Hr; [discriminate H |].
    simpl in Hws2.
    destruct (d =? 125) eqn:E4.
    - injection H as <- <-. split; [lia |].
      intros f' Hf'. destruct f' as [| f']; [lia |].
      rewrite parse_value_eq, Hs, E1, E2, E3, Hr, E4. reflexivity.
    - destruct (Json.parse_members f r) as [[ms rest'] |] eqn:Hm;
        [| discriminate H].
      injection H as <- <-. destruct (IHm _ _ _ Hm) as [Hl Hf].
      split; [lia |]. intros f' Hf'. destruct f' as [| f']; [lia |].
      rewrite parse_value_eq, Hs, E1, E2, E3, Hr, E4, Hf by lia.
      reflexivity. }
  destruct (c =? 116) eqn:E4.
  { pose proof (literal_length _ _ _ _ _ H) as Hl.
    split; [lia |]. intros f' Hf'. destruct f' as [| f']; [lia |].
    rewrite parse_value_eq, Hs, E1, E2, E3, E4. exact H. }
  destruct (c =? 102) eqn:E5.
  { pose proof (literal_length _ _ _ _ _ H) as Hl.
    split; [lia |]. intros f' Hf'. destruct f' as [| f']; [lia |].
    rewrite parse_value_eq, Hs, E1, E2, E3, E4, E5. exact H. }
  destruct (c =? 110) eqn:E6.
  { pose proof (literal_length _ _ _ _ _ H) as Hl.
    split; [lia |]. intros f' Hf'. destruct f' as [| f']; [lia |].
    rewrite parse_value_eq, Hs, E1, E2, E3, E4, E5, E6. exact H. }
  destruct (Json.parse_number (c :: r)) as [[lexeme rest'] |] eqn:Hn;
    [| discriminate H].
  injection H as <- <-. pose proof (parse_number_length _ _ _ Hn) as Hl.
  simpl in Hl. split; [lia |].
  intros f' Hf'. destruct f' as [| f']; [lia |].
  rewrite parse_value_eq, Hs, E1, E2, E3, E4, E5, E6, Hn. reflexivity.
Qed.

Lemma parse_elements_fuel_step (f : nat) :
  enough_fuel Json.parse_value 0 f ->
  enough_fuel Json.parse_elements 1 f ->
  enough_fuel Json.parse_elements 1 (S f).
Proof.
  intros IHv IHe s vs rest H. rewrite parse_elements_eq in H.
  destruct (Json.parse_value f s) as [[v rest1] |] eqn:Hv; [| discriminate H].
  destruct (IHv _ _ _ Hv) as [Hl1 Hf1].
  pose proof (skip_ws_length rest1) as Hws.
  destruct (Json.skip_ws rest1) as [| c r] eqn:Hs; [discriminate H |].
  simpl in Hws.
  destruct (c =? 44) eqn:E1.
  - destruct (Json.parse_elements f r) as [[vs' rest'] |] eqn:He;
      [| discriminate H].
    injection H as <- <-. destruct (IHe _ _ _ He) as [Hl2 Hf2].
    split; [lia |]. intros f' Hf'. destruct f' as [| f']; [lia |].
    rewrite parse_elements_eq, Hf1 by lia.
    rewrite Hs, E1, Hf2 by lia. reflexivity.
  - destruct (c =? 93) eqn:E2; [| discriminate H].
    injection H as <- <-. split; [lia |].
    intros f' Hf'. destruct f' as [| f']; [lia |].
    rewrite parse_elements_eq, Hf1 by lia.
    rewrite Hs, E1, E2. reflexivity.
Qed.

Lemma parse_members_fuel_step (f : nat) :
  enough_fuel Json.parse_value 0 f ->
  enough_fuel Json.parse_members 1 f ->
  enough_fuel Json.parse_members 1 (S f).
Proof.
  intros IHv IHm s ms rest H. rewrite parse_members_eq in H.
  pose proof (skip_ws_length s) as Hws.
  destruct (Json.skip_ws s) as [| c r] eqn:Hs; [discriminate H |].
  simpl in Hws.
  destruct (c =? 34) eqn:E1; [| discriminate H].
  destruct (Json.parse_chars r) as [[k rest0] |] eqn:Hc; [| discriminate H].
  pose proof (parse_chars_length _ _ _ Hc) as Hl0.
  pose proof (skip_ws_length rest0) as Hws0.
  destruct (Json.skip_ws rest0) as [| d r1] eqn:Hs0; [discriminate H |].
  simpl in Hws0.
  destruct (d =? 58) eqn:E2; [| discriminate H].
  destruct (Json.parse_value f r1) as [[v rest1] |] eqn:Hv; [| discriminate H].
  destruct (IHv _ _ _ Hv) as [Hl1 Hf1].
  pose proof (skip_ws_length rest1) as Hws1.
  destruct (Json.skip_ws rest1) as [| e r2] eqn:Hs1; [discriminate H |].
  simpl in Hws1.
  destruct (e =? 44) eqn:E3.
  - destruct (Json.parse_members f r2) as [[ms' rest'] |] eqn:Hm;
      [| discriminate H].
    injection H as <- <-. destruct (IHm _ _ _ Hm) as [Hl2 Hf2].
    split; [lia |]. intros f' Hf'. destruct f' as [| f']; [lia |].
    rewrite parse_members_eq, Hs, E1, Hc, Hs0, E2, Hf1 by lia.
    rewrite Hs1, E3, Hf2 by lia. reflexivity.
  - destruct (e =? 125) eqn:E4; [| discriminate H].
    injection H as <- <-. split; [lia |].
    intros f' Hf'. destruct f' as [| f']; [lia |].
    rewrite parse_members_eq, Hs, E1, Hc, Hs0, E2, Hf1 by lia.
    rewrite Hs1, E3, E4. reflexivity.
Qed.

Lemma parse_fuel (f : nat) :
  enough_fuel Json.parse_value 0 f
  /\ enough_fuel Json.parse_elements 1 f
  /\ enough_fuel Json.parse_members 1 f.
Proof.
  induction f as [| f (IHv & IHe & IHm)].
  - split; [| split]; intros s a rest H; discriminate H.
  - split; [| split].
    + apply parse_value_fuel_step; assumption.
    + apply parse_elements_fuel_step; assumption.
    + apply parse_members_fuel_step; assumption.
Qed.

(** The fuel [parse] gives is never the reason of a failure: a value
    that some amount of fuel finds, the fuel of [parse] finds. *)
Lemma parse_value_fuel (f : nat) (s : jsstring) (v : json) (rest : jsstring) :
  Json.parse_value f s = Some (v, rest) ->
  Json.parse_value (2 * List.length s + 2) s = Some (v, rest).
Proof.
  intros H. destruct (parse_fuel f) as [Hv _].
  destruct (Hv _ _ _ H) as [_ Hf]. apply Hf. lia.
Qed.

(** Hence [parse] returns [None] only on a text that is not one JSON
    value surrounded by white space. *)
Lemma parse_None_syntax_error (s : jsstring) :
  Json.parse s = None ->
  forall (f : nat) (v : json) (rest : jsstring),
    Json.parse_value f s = Some (v, rest) -> Json.skip_ws rest <> [].
Proof.
  unfold Json.parse. intros H f v rest Hv.
  rewrite (parse_value_fuel f s v rest Hv) in H.
  destruct (Json.skip_ws rest); [discriminate H | discriminate].
Qed.

(** * Further properties of the handlers *)

(** ** What a handler leaves behind *)

Lemma filter_all_true {A : Type} (p : A -> bool) (l : list A) :
  (forall x, In x l -> p x = true) -> List.filter p l = l.
Proof.
  induction l as [| x l IH]; intros H; simpl; [reflexivity |].
  rewrite (H x) by (left; reflexivity).
  rewrite IH by (intros y Hy; apply H; right; exact Hy). reflexivity.
Qed.

Lemma filter_twice {A : Type} (p : A -> bool) (l : list A) :
  List.filter p (List.filter p l) = List.filter p l.
Proof.
  apply filter_all_true. intros x Hx. apply filter_In in Hx as [_ Hx].
  exact Hx.
Qed.

Lemma deleteTodo_todos (id' : jsstring) (w : World (list Todo)) :
  todos (app (exec (deleteTodo id') w)) =
  if writable (storage w)
  then List.filter (fun t => negb (bool_decide (id t = id'))) (todos (app w))
  else todos (app w).
Proof. exact (mutate_todos (Delete id') w). Qed.



Lemma existsb_filter_negb {A : Type} (p : A -> bool) (l : list A) :
  List.existsb p (List.filter (fun x => negb (p x)) l) = false.
Proof.
  induction l as [| x l IH]; simpl; [reflexivity |].
  destruct (p x) eqn:E; simpl; [exact IH |]. rewrite E, IH. reflexivity.
Qed.

Lemma clearCompleted_todos (w : World (list Todo)) :
  todos (app (exec (clearCompleted true) w)) =
  if writable (storage w)
  then List.filter (fun t => negb (completed t)) (todos (app w))
  else todos (app w).
Proof. exact (mutate_todos ClearCompleted w). Qed.

(** X2.  ClearCompleted: "Cancel" leaves everything as it was, store and
    console included.  "Clear", after a successful write, leaves the
    tasks that are not completed, in their order: the count of active
    tasks is the same, it is now the length of the list, and the footer
    no longer offers "Clear Completed". *)
Theorem clearCompleted_keeps_active (w : World (list Todo)) :
  exec (clearCompleted false) w = w
  /\ (writable (storage w) = true ->
      sublist (todos (app (exec (clearCompleted true) w))) (todos (app w))
      /\ (forall t, In t (todos (app (exec (clearCompleted true) w)))
                    <-> In t (todos (app w)) /\ completed t = false)
      /\ activeCount (app (exec (clearCompleted true) w)) = activeCount (app w)
      /\ List.length (todos (app (exec (clearCompleted true) w)))
         = activeCount (app w)
      /\ hasCompleted (app (exec (clearCompleted true) w)) = false).
Proof.
  split; [reflexivity |].
  intros Hw. unfold activeCount, hasCompleted.
  rewrite clearCompleted_todos, Hw.
  split; [apply filter_sublist | split; [| split; [| split]]].
  - intros t. rewrite filter_In, negb_true_iff. reflexivity.
  - rewrite filter_twice. reflexivity.
  - reflexivity.
  - apply existsb_filter_negb.
Qed.

Lemma clearCompleted_keeps_active_witness :
  todos (app (exec (clearCompleted true)
                (with_todos [Sample.buy; Sample.call; Sample.walk]
                   Filter.all Sample.healthy)))
  `sublist_of` [Sample.buy; Sample.call; Sample.walk]
  /\ hasCompleted
       (app (exec (clearCompleted true)
               (with_todos [Sample.buy; Sample.call; Sample.walk]
                  Filter.all Sample.healthy))) = false.
Proof.
  split.
  - apply (proj1 (proj2 (clearCompleted_keeps_active
             (with_todos [Sample.buy; Sample.call; Sample.walk]
                Filter.all Sample.healthy)) eq_refl)).
  - apply (proj2 (proj2 (proj2 (proj2 (proj2 (clearCompleted_keeps_active
             (with_todos [Sample.buy; Sample.call; Sample.walk]
                Filter.all Sample.healthy)) eq_refl))))).
Defined.

(** The whole world after a mutation. *)
Lemma mutate_world (m : Mutation) (w : World (list Todo)) :
  mutate m w =
  (mkWorld
     (mkApp (isDark (app w))
        (if writable (storage w) then next_todos m (todos (app w))
         else todos (app w))
        (match m with
         | Add text' _ =>
             if JsString.truthy (JsString.trim text') then [] else text'
         | _ => input (app w)
         end)
        (filter (app w)))
     (if calls_saveTodos m && writable (storage w)
      then mkStorage
             (<[STORAGE_KEY := JSON_stringify (next_todos m (todos (app w)))]>
                (items (storage w)))
             (readable (storage w)) (writable (storage w))
      else storage w)
     (if calls_saveTodos m && negb (writable (storage w))
      then StorageError :: console w else console w),
   inr tt).
Proof.
  destruct w as [[d ts i f] [it r wr] c].
  destruct m as [text' now | id' | id' | data | ]; unfold_handlers; simpl;
    try (destruct wr; reflexivity).
  destruct (JsString.truthy (JsString.trim text')); simpl;
    destruct wr; reflexivity.
Qed.

Lemma handleThemeToggle_world (w : World (list Todo)) :
  handleThemeToggle w =
  (mkWorld
     (mkApp (negb (isDark (app w))) (todos (app w)) (input (app w))
        (filter (app w)))
     (if writable (storage w)
      then mkStorage
             (<[THEME_KEY := if negb (isDark (app w)) then js "dark"
                             else js "light"]> (items (storage w)))
             (readable (storage w)) (writable (storage w))
      else storage w)
     (console w),
   if writable (storage w) then inr tt else inl StorageError).
Proof.
  destruct w as [[d ts i f] [it r wr] c]. unfold_handlers. simpl.
  destruct wr; reflexivity.
Qed.

(** X3.  Every handler that changes the task list resolves, whatever the
    store does: a rejected write is caught and logged once, and nothing
    is logged otherwise. *)
Theorem mutations_never_throw (m : Mutation) (w : World (list Todo)) :
  outcome (mutate m) w = inr tt
  /\ (writable (storage w) = true ->
      console (exec (mutate m) w) = console w)
  /\ (writable (storage w) = false ->
      console (exec (mutate m) w)
      = if calls_saveTodos m then StorageError :: console w else console w).
Proof.
  unfold outcome, exec. rewrite mutate_world. simpl.
  split; [reflexivity | split]; intros Hw; rewrite Hw;
    destruct (calls_saveTodos m); reflexivity.
Qed.

Lemma mutations_never_throw_witness :
  console (exec (mutate (Delete (js "1")))
             (with_todos [Sample.buy] Filter.all Sample.healthy)) = []
  /\ console (exec (mutate (Delete (js "1")))
                (with_todos [Sample.buy] Filter.all Sample.read_only))
     = [StorageError].
Proof.
  split.
  - apply (proj1 (proj2 (mutations_never_throw (Delete (js "1"))
             (with_todos [Sample.buy] Filter.all Sample.healthy)))).
    reflexivity.
  - apply (proj2 (proj2 (mutations_never_throw (Delete (js "1"))
             (with_todos [Sample.buy] Filter.all Sample.read_only)))).
    reflexivity.
Defined.

(** ** The theme switch *)

(** X4.  HandleThemeToggle over a store that takes the write: the flag is
    flipped, the store holds "dark" or "light" accordingly under
    "@theme", the stored task list and the tasks in memory are not
    touched, and the promise resolves. *)
Theorem theme_toggle_persists (w : World (list Todo)) :
  writable (storage w) = true ->
  isDark (app (exec handleThemeToggle w)) = negb (isDark (app w))
  /\ items (storage (exec handleThemeToggle w)) !! THEME_KEY
     = Some (if isDark (app w) then js "light" else js "dark")
  /\ items (storage (exec handleThemeToggle w)) !! STORAGE_KEY
     = items (storage w) !! STORAGE_KEY
  /\ todos (app (exec handleThemeToggle w)) = todos (app w)
  /\ outcome handleThemeToggle w = inr tt.
Proof.
  intros Hw. unfold exec, outcome. rewrite handleThemeToggle_world, Hw. simpl.
  split; [reflexivity | split; [| split; [| split; reflexivity]]].
  - rewrite lookup_insert_eq. destruct (isDark (app w)); reflexivity.
  - apply lookup_insert_ne. discriminate.
Qed.

Lemma theme_toggle_persists_witness :
  writable (storage (mounted Sample.healthy)) = true
  /\ items (storage (exec handleThemeToggle (mounted Sample.healthy)))
       !! THEME_KEY = Some (js "dark").
Proof.
  split; [reflexivity |].
  apply (proj1 (proj2 (theme_toggle_persists (mounted Sample.healthy)
                         eq_refl))).
Defined.

(** X5.  HandleThemeToggle over a store that rejects the write: the flag is
    flipped all the same, nothing is stored or logged, and the rejection
    leaves the handler uncaught. *)
Theorem theme_toggle_rejected_write (w : World (list Todo)) :
  writable (storage w) = false ->
  isDark (app (exec handleThemeToggle w)) = negb (isDark (app w))
  /\ storage (exec handleThemeToggle w) = storage w
  /\ console (exec handleThemeToggle w) = console w
  /\ outcome handleThemeToggle w = inl StorageError.
Proof.
  intros Hw. unfold exec, outcome. rewrite handleThemeToggle_world, Hw.
  repeat split.
Qed.

Lemma theme_toggle_rejected_write_witness :
  writable (storage (mounted Sample.read_only)) = false
  /\ isDark (app (exec handleThemeToggle (mounted Sample.read_only))) = true
  /\ outcome handleThemeToggle (mounted Sample.read_only) = inl StorageError.
Proof.
  split; [reflexivity |].
  pose proof (theme_toggle_rejected_write (mounted Sample.read_only) eq_refl)
    as (H1 & _ & _ & H4).
  split; [exact H1 | exact H4].
Defined.

(** X6.  The mutations and the theme do not meet: no mutation changes the
    theme flag, the filter, the stored theme or the health of the
    store. *)
Theorem mutations_leave_theme_alone (m : Mutation) (w : World (list Todo)) :
  isDark (app (exec (mutate m) w)) = isDark (app w)
  /\ filter (app (exec (mutate m) w)) = filter (app w)
  /\ items (storage (exec (mutate m) w)) !! THEME_KEY
     = items (storage w) !! THEME_KEY
  /\ readable (storage (exec (mutate m) w)) = readable (storage w)
  /\ writable (storage (exec (mutate m) w)) = writable (storage w).
Proof.
  unfold exec. rewrite mutate_world. simpl.
  split; [reflexivity | split; [reflexivity |]].
  destruct (calls_saveTodos m && writable (storage w)); simpl;
    repeat split.
  apply lookup_insert_ne. discriminate.
Qed.

(** ** The input field *)

(** X7.  Add: a text that is blank after trimming stays in the field;
    any other text is cleared from the field, also when the write is
    rejected and no task was added. *)
Theorem add_clears_input (text' : jsstring) (now : N) (w : World (list Todo)) :
  (JsString.trim text' = [] -> input (app (exec (add text' now) w)) = text')
  /\ (JsString.trim text' <> [] -> input (app (exec (add text' now) w)) = []).
Proof.
  change (add text' now) with (mutate (Add text' now)).
  unfold exec. rewrite mutate_world. simpl. split; intros H.
  - apply truthy_false_iff in H. rewrite H. reflexivity.
  - destruct (JsString.truthy (JsString.trim text')) eqn:E; [reflexivity |].
    apply truthy_false_iff in E. contradiction.
Qed.

Lemma add_clears_input_witness :
  input (app (exec (add (js "  ") 5) (mounted Sample.healthy))) = js "  "
  /\ input (app (exec (add (js " a") 5) (mounted Sample.read_only))) = [].
Proof.
  split.
  - apply (proj1 (add_clears_input (js "  ") 5 (mounted Sample.healthy))).
    reflexivity.
  - apply (proj2 (add_clears_input (js " a") 5 (mounted Sample.read_only))).
    vm_compute. discriminate.
Defined.

(** ** Sessions and restarts *)

Lemma dispatch_health (i : Intent) (w : World (list Todo)) :
  readable (storage (exec (dispatch i) w)) = readable (storage w)
  /\ writable (storage (exec (dispatch i) w)) = writable (storage w).
Proof.
  destruct i as [m | f | | ]; simpl.
  - unfold exec. rewrite mutate_world. simpl.
    destruct (calls_saveTodos m && writable (storage w)); split; reflexivity.
  - split; reflexivity.
  - unfold exec. rewrite handleThemeToggle_world. simpl.
    destruct (writable (storage w)) eqn:E; simpl; split; auto.
  - split; reflexivity.
Qed.

Lemma play_health (l : list Intent) (w : World (list Todo)) :
  readable (storage (play l w)) = readable (storage w)
  /\ writable (storage (play l w)) = writable (storage w).
Proof.
  revert w. induction l as [| i l IH]; intros w; simpl; [split; reflexivity |].
  destruct (IH (exec (dispatch i) w)) as [Hr Hw].
  destruct (dispatch_health i w) as [Hr' Hw'].
  split; congruence.
Qed.

Lemma next_todos_without_save (m : Mutation) (ts : list Todo) :
  calls_saveTodos m = false -> next_todos m ts = ts.
Proof.
  destruct m as [text' now | | | | ]; simpl; try discriminate.
  intros ->. reflexivity.
Qed.

Lemma dispatch_todos_in_step (i : Intent) (w : World (list Todo)) :
  todos_in_step w -> todos_in_step (exec (dispatch i) w).
Proof.
  unfold todos_in_step. intros H. destruct i as [m | f | | ]; simpl.
  - unfold exec. rewrite mutate_world. simpl.
    destruct (calls_saveTodos m) eqn:Hc; destruct (writable (storage w));
      simpl; try exact H.
    + rewrite lookup_insert_eq. reflexivity.
    + rewrite (next_todos_without_save m _ Hc). exact H.
  - exact H.
  - unfold exec. rewrite handleThemeToggle_world. simpl.
    destruct (writable (storage w)); simpl; [| exact H].
    rewrite lookup_insert_ne by discriminate. exact H.
  - exact H.
Qed.

Lemma play_todos_in_step (l : list Intent) (w : World (list Todo)) :
  todos_in_step w -> todos_in_step (play l w).
Proof.
  revert w. induction l as [| i l IH]; intros w H; simpl; [exact H |].
  apply IH, dispatch_todos_in_step, H.
Qed.

(** X8.  The store follows the memory: if the blob under "@todos" is the
    text of the task list (or there is neither blob nor task), it still
    is after any session, whether the writes of the session succeed or
    not. *)
Theorem session_keeps_todos_in_step (l : list Intent) (w : World (list Todo)) :
  todos_in_step w ->
  match items (storage (play l w)) !! STORAGE_KEY with
  | Some blob => blob = JSON_stringify (todos (app (play l w)))
  | None => todos (app (play l w)) = []
  end.
Proof. intros H. apply (play_todos_in_step l w H). Qed.

Lemma session_keeps_todos_in_step_witness :
  todos_in_step (mounted Sample.healthy)
  /\ todos_in_step
       (play [Mutate (Add (js "a") 1); SwitchTheme; Mutate (Add (js "b") 2);
              Mutate (ToggleComplete (js "1")); SelectFilter Filter.active;
              Mutate (Delete (js "2"))]
          (mounted Sample.healthy)).
Proof.
  split; [reflexivity |].
  apply (session_keeps_todos_in_step _ (mounted Sample.healthy)).
  reflexivity.
Defined.

Lemma load_in_step (w : World (list Todo)) :
  readable (storage w) = true ->
  todos_in_step w ->
  todos (app (exec load (startup (storage w)))) = todos_to_json (todos (app w)).
Proof.
  unfold todos_in_step. intros Hr H.
  destruct (items (storage w) !! STORAGE_KEY) as [blob |] eqn:E.
  - subst blob. apply (load_parsed (startup (storage w)) _ _ Hr E).
    apply parse_stringify.
  - rewrite H. apply (load_absent (startup (storage w))). exact E.
Qed.

(** X9.  Closing and reopening the application loses no task: over a
    readable store that agrees with the memory at the start, the
    start-up effect finds after any session the very list the session
    left in memory (as the array of the same tasks). *)
Theorem restart_restores_todos (l : list Intent) (w : World (list Todo)) :
  readable (storage w) = true ->
  todos_in_step w ->
  todos (app (exec load (startup (storage (play l w)))))
  = todos_to_json (todos (app (play l w)))
  /\ todos_of_json (todos (app (exec load (startup (storage (play l w))))))
     = Some (todos (app (play l w))).
Proof.
  intros Hr H.
  assert (E : todos (app (exec load (startup (storage (play l w)))))
              = todos_to_json (todos (app (play l w)))).
  { apply load_in_step.
    - rewrite (proj1 (play_health l w)). exact Hr.
    - apply play_todos_in_step, H. }
  split; [exact E |]. rewrite E. apply todos_of_to_json.
Qed.

Lemma restart_restores_todos_witness :
  readable (storage (mounted Sample.healthy)) = true
  /\ todos_of_json
       (todos (app (exec load
                      (startup
                         (storage
                            (play [Mutate (Add (js "a") 1); SwitchTheme;
                                   Mutate (ToggleComplete (js "1"))]
                               (mounted Sample.healthy)))))))
     = Some (todos (app (play [Mutate (Add (js "a") 1); SwitchTheme;
                               Mutate (ToggleComplete (js "1"))]
                           (mounted Sample.healthy)))).
Proof.
  split; [reflexivity |].
  apply (proj2 (restart_restores_todos
                  [Mutate (Add (js "a") 1); SwitchTheme;
                   Mutate (ToggleComplete (js "1"))]
                  (mounted Sample.healthy) eq_refl eq_refl)).
Defined.

Lemma stringify_not_empty (ts : list Todo) : JSON_stringify ts <> [].
Proof. unfold JSON_stringify. discriminate. Qed.

(** The theme flag after the start-up effect. *)
Lemma load_isDark (s : AsyncStorage) :
  isDark (app (exec load (startup s))) =
  readable s
  && bool_decide (items s !! THEME_KEY = Some (js "dark"))
  && match items s !! STORAGE_KEY with
     | Some (c :: r) =>
         match Json.parse (c :: r) with Some _ => true | None => false end
     | _ => true
     end.
Proof.
  unfold exec. rewrite load_cases. simpl.
  destruct (readable s); [| reflexivity]. simpl.
  destruct (items s !! STORAGE_KEY) as [[| c r] |]; simpl.
  - destruct (bool_decide (items s !! THEME_KEY = Some (js "dark")));
      reflexivity.
  - destruct (Json.parse (c :: r)); simpl.
    + destruct (bool_decide (items s !! THEME_KEY = Some (js "dark")));
        reflexivity.
    + rewrite andb_false_r. reflexivity.
  - destruct (bool_decide (items s !! THEME_KEY = Some (js "dark")));
      reflexivity.
Qed.

(** X11.  When the start-up effect restores the dark theme.  It does
    so only if the store can be read, holds "dark" under "@theme", and
    the blob under "@todos" is absent, empty or valid JSON; and it does
    so whenever the store can be read, holds "dark" under "@theme", and
    the blob under "@todos" is absent, empty or the text of a task
    array.  Any other stored theme ("light" or anything else), an
    unreadable store or an unparsable task list leaves the light
    theme. *)
Theorem load_restores_dark_when (s : AsyncStorage) :
  (isDark (app (exec load (startup s))) = true ->
   readable s = true
   /\ items s !! THEME_KEY = Some (js "dark")
   /\ forall blob, items s !! STORAGE_KEY = Some blob ->
                   blob = [] \/ Json.parse blob <> None)
  /\ (readable s = true ->
      items s !! THEME_KEY = Some (js "dark") ->
      (forall blob, items s !! STORAGE_KEY = Some blob ->
                    blob = []
                    \/ exists v ts, Json.parse blob = Some v
                                    /\ todos_of_json v = Some ts) ->
      isDark (app (exec load (startup s))) = true).
Proof.
  rewrite load_isDark, !andb_true_iff, bool_decide_eq_true.
  split.
  - intros [[Hr Ht] Hb]. split; [exact Hr | split; [exact Ht |]].
    intros blob E. rewrite E in Hb.
    destruct blob as [| c r]; [left; reflexivity |].
    right. destruct (Json.parse (c :: r)); [discriminate | discriminate Hb].
  - intros Hr Ht Hb. split; [split; assumption |].
    destruct (items s !! STORAGE_KEY) as [[| c r] |]; try reflexivity.
    destruct (Hb (c :: r) eq_refl) as [E | (v & ts & E & _)];
      [discriminate E |].
    rewrite E. reflexivity.
Qed.

(** X12.  The start-up effect only reads: it leaves the store, the input
    field and the filter as they were, and logs at most one error. *)
Theorem load_only_reads (w : World json) :
  storage (exec load w) = storage w
  /\ input (app (exec load w)) = input (app w)
  /\ filter (app (exec load w)) = filter (app w)
  /\ (console (exec load w) = console w
      \/ console (exec load w) = StorageError :: console w
      \/ console (exec load w) = SyntaxError :: console w).
Proof.
  unfold exec. rewrite load_cases.
  destruct (readable (storage w));
    [destruct (items (storage w) !! STORAGE_KEY) as [[| c r] |];
     [| destruct (Json.parse (c :: r)) |] |];
    simpl; repeat split;
    first [left; reflexivity | right; left; reflexivity
          | right; right; reflexivity].
Qed.

Lemma dispatch_theme_in_step (i : Intent) (w : World (list Todo)) :
  writable (storage w) = true ->
  theme_in_step w -> theme_in_step (exec (dispatch i) w).
Proof.
  unfold theme_in_step. intros Hw H. destruct i as [m | f | | ]; simpl.
  - unfold exec. rewrite mutate_world. simpl. rewrite H.
    destruct (calls_saveTodos m && writable (storage w)); simpl;
      [| reflexivity].
    rewrite lookup_insert_ne by discriminate. reflexivity.
  - exact H.
  - unfold exec. rewrite handleThemeToggle_world, Hw. simpl.
    rewrite lookup_insert_eq. destruct (isDark (app w)); reflexivity.
  - exact H.
Qed.

Lemma play_theme_in_step (l : list Intent) (w : World (list Todo)) :
  writable (storage w) = true ->
  theme_in_step w -> theme_in_step (play l w).
Proof.
  revert w. induction l as [| i l IH]; intros w Hw H; simpl; [exact H |].
  apply IH.
  - rewrite (proj2 (dispatch_health i w)). exact Hw.
  - apply dispatch_theme_in_step; assumption.
Qed.

(** X10.  Closing and reopening the application keeps the theme: over a store
    that can be read and written and that agrees with the memory at the
    start, the start-up effect finds after any session the theme flag
    the session left in memory. *)
Theorem restart_restores_theme (l : list Intent) (w : World (list Todo)) :
  readable (storage w) = true ->
  writable (storage w) = true ->
  todos_in_step w ->
  theme_in_step w ->
  isDark (app (exec load (startup (storage (play l w)))))
  = isDark (app (play l w)).
Proof.
  intros Hr Hw Ht Hd.
  pose proof (play_todos_in_step l w Ht) as Ht'.
  pose proof (play_theme_in_step l w Hw Hd) as Hd'.
  unfold todos_in_step in Ht'. unfold theme_in_step in Hd'.
  rewrite load_isDark, (proj1 (play_health l w)), Hr, Hd'. simpl.
  destruct (items (storage (play l w)) !! STORAGE_KEY) as [[| c r] |];
    try (rewrite andb_true_r; reflexivity).
  rewrite Ht', parse_stringify, andb_true_r. reflexivity.
Qed.

Lemma restart_restores_theme_witness :
  isDark (app (play [SwitchTheme; Mutate (Add (js "a") 1); SwitchTheme;
                     SwitchTheme] (mounted Sample.healthy))) = true
  /\ isDark (app (exec load
                    (startup
                       (storage
                          (play [SwitchTheme; Mutate (Add (js "a") 1);
                                 SwitchTheme; SwitchTheme]
                             (mounted Sample.healthy))))))
     = isDark (app (play [SwitchTheme; Mutate (Add (js "a") 1); SwitchTheme;
                          SwitchTheme] (mounted Sample.healthy))).
Proof.
  split; [reflexivity |].
  apply (restart_restores_theme _ (mounted Sample.healthy));
    reflexivity.
Defined.

Lemma load_restores_dark_when_witness :
  isDark
    (app (exec load
            (startup
               (store_of [(STORAGE_KEY, JSON_stringify [Sample.buy]);
                          (THEME_KEY, js "dark")] true true)))) = true.
Proof.
  apply (proj2 (load_restores_dark_when
                  (store_of [(STORAGE_KEY, JSON_stringify [Sample.buy]);
                             (THEME_KEY, js "dark")] true true))).
  - reflexivity.
  - reflexivity.
  - intros blob E. vm_compute in E. injection E as <-.
    right. exists (todos_to_json [Sample.buy]), [Sample.buy].
    split; vm_compute; reflexivity.
Defined.

(** ** The text of a task *)

Lemma trimStart_suffix (s : jsstring) :
  exists p, s = p ++ JsString.trimStart s.
Proof.
  induction s as [| c r [p IH]]; simpl; [exists []; reflexivity |].
  destruct (JsString.is_space c).
  - exists (c :: p). simpl. rewrite <- IH. reflexivity.
  - exists []. reflexivity.
Qed.

Lemma trimStart_head (s : jsstring) (c : N) (r : jsstring) :
  JsString.trimStart s = c :: r -> JsString.is_space c = false.
Proof.
  induction s as [| x s IH]; simpl; [discriminate |].
  destruct (JsString.is_space x) eqn:E; [exact IH |].
  intros H. injection H as <- _. exact E.
Qed.

Lemma trimStart_fixed (s : jsstring) :
  (forall c r, s = c :: r -> JsString.is_space c = false) ->
  JsString.trimStart s = s.
Proof.
  destruct s as [| c r]; intros H; simpl; [reflexivity |].
  rewrite (H c r eq_refl). reflexivity.
Qed.

Lemma trimStart_twice (s : jsstring) :
  JsString.trimStart (JsString.trimStart s) = JsString.trimStart s.
Proof.
  apply trimStart_fixed. intros c r H. apply (trimStart_head s c r H).
Qed.

Lemma trim_is_prefix (s : jsstring) :
  exists q, JsString.trimStart s = JsString.trim s ++ q.
Proof.
  unfold JsString.trim, JsString.trimEnd.
  destruct (trimStart_suffix (rev (JsString.trimStart s))) as [p Hp].
  exists (rev p).
  rewrite <- rev_app_distr, <- Hp, rev_involutive. reflexivity.
Qed.

Lemma trimStart_trim (s : jsstring) :
  JsString.trimStart (JsString.trim s) = JsString.trim s.
Proof.
  apply trimStart_fixed. intros c r H.
  destruct (trim_is_prefix s) as [q Hq]. rewrite H in Hq.
  apply (trimStart_head s c (r ++ q)). exact Hq.
Qed.

Lemma trimStart_rev_trim (s : jsstring) :
  JsString.trimStart (rev (JsString.trim s)) = rev (JsString.trim s).
Proof.
  unfold JsString.trim, JsString.trimEnd.
  rewrite rev_involutive. apply trimStart_twice.
Qed.

Lemma trim_twice (s : jsstring) :
  JsString.trim (JsString.trim s) = JsString.trim s.
Proof.
  unfold JsString.trim at 1. unfold JsString.trimEnd.
  rewrite trimStart_trim, trimStart_rev_trim. apply rev_involutive.
Qed.

Lemma Forall_In {A : Type} (P : A -> Prop) (l : list A) :
  Forall P l <-> forall x, In x l -> P x.
Proof. apply List.Forall_forall. Qed.

Lemma dispatch_todos (i : Intent) (w : World (list Todo)) :
  todos (app (exec (dispatch i) w)) =
  match i with
  | Mutate m =>
      if writable (storage w) then next_todos m (todos (app w))
      else todos (app w)
  | _ => todos (app w)
  end.
Proof.
  destruct i as [m | f | | ]; simpl; try reflexivity.
  - apply mutate_todos.
  - unfold exec. rewrite handleThemeToggle_world. reflexivity.
Qed.

Lemma dispatch_filter (i : Intent) (w : World (list Todo)) :
  filter (app (exec (dispatch i) w)) =
  match i with
  | SelectFilter f => f
  | _ => filter (app w)
  end.
Proof.
  destruct i as [m | f | | ]; simpl; try reflexivity.
  - unfold exec. rewrite mutate_world. reflexivity.
  - unfold exec. rewrite handleThemeToggle_world. reflexivity.
Qed.

Lemma filteredTodos_In (a : AppState (list Todo)) (t : Todo) :
  In t (filteredTodos a) -> In t (todos a).
Proof. unfold filteredTodos. intros H. apply filter_In in H as [H _]. exact H. Qed.

Lemma dispatch_well_trimmed (i : Intent) (w : World (list Todo)) :
  Forall well_trimmed (todos (app w)) ->
  drag_from_view i (app w) ->
  Forall well_trimmed (todos (app (exec (dispatch i) w))).
Proof.
  intros H Hd. rewrite dispatch_todos.
  destruct i as [m | f | | ]; try exact H.
  destruct (writable (storage w)); [| exact H].
  rewrite Forall_In in H. rewrite Forall_In.
  destruct m as [text' now | id' | id' | data | ]; simpl in *.
  - destruct (JsString.truthy (JsString.trim text')) eqn:E; [| exact H].
    intros t Ht. apply in_app_iff in Ht as [Ht | [<- | []]]; [apply H, Ht |].
    split; simpl.
    + intros E'. rewrite E' in E. discriminate E.
    + apply trim_twice.
  - intros t Ht. apply in_map_iff in Ht as (u & <- & Hu).
    destruct (bool_decide (id u = id')); [| apply H, Hu].
    apply (H u Hu).
  - intros t Ht. apply filter_In in Ht as [Ht _]. apply H, Ht.
  - intros t Ht. apply H, (filteredTodos_In (app w)).
    apply (Permutation_in _ Hd Ht).
  - intros t Ht. apply filter_In in Ht as [Ht _]. apply H, Ht.
Qed.

(** X13.  No task has a blank or padded text: starting from a list of tasks
    whose texts are not empty and carry no white space at either end
    (the empty list, for one), every session in which the drags hand
    back the rows they were given leaves such a list. *)
Theorem tasks_stay_well_trimmed (l : list Intent) (w : World (list Todo)) :
  Forall well_trimmed (todos (app w)) ->
  drags_from_view l w ->
  Forall well_trimmed (todos (app (play l w))).
Proof.
  revert w. induction l as [| i l IH]; intros w H Hd; simpl; [exact H |].
  destruct Hd as [Hi Hl]. apply IH; [| exact Hl].
  apply dispatch_well_trimmed; assumption.
Qed.

Lemma tasks_stay_well_trimmed_witness :
  Forall well_trimmed
    (todos (app (play [Mutate (Add (js "  a b  ") 1); Mutate (Add (js " ") 2);
                       Mutate (Reorder [mkTodo (js "1") (js "a b") false])]
                   (mounted Sample.healthy)))).
Proof.
  apply (tasks_stay_well_trimmed _ (mounted Sample.healthy)).
  - constructor.
  - simpl. repeat split. vm_compute. reflexivity.
Defined.

(** ** Ids under a clock that never repeats *)

Lemma lit_inj (s1 s2 : string) : js s1 = js s2 -> s1 = s2.
Proof.
  unfold JsString.lit. intros H.
  rewrite <- (string_of_list_ascii_of_string s1),
          <- (string_of_list_ascii_of_string s2).
  f_equal.
  assert (Hinj : forall l1 l2 : list ascii,
             List.map N_of_ascii l1 = List.map N_of_ascii l2 -> l1 = l2).
  { induction l1 as [| a l1 IH]; intros [| b l2] E; simpl in E;
      try discriminate; [reflexivity |].
    injection E as Ea El. f_equal; [| apply IH, El].
    rewrite <- (ascii_N_embedding a), <- (ascii_N_embedding b), Ea.
    reflexivity. }
  apply Hinj, H.
Qed.

Lemma of_number_inj (n m : N) :
  JsString.of_number n = JsString.of_number m -> n = m.
Proof.
  unfold JsString.of_number. intros H. apply lit_inj in H.
  assert (E : Some (N.to_uint n) = Some (N.to_uint m)).
  { rewrite <- !NilEmpty.usu, H. reflexivity. }
  injection E as E.
  rewrite <- (Unsigned.of_to n), <- (Unsigned.of_to m), E. reflexivity.
Qed.

Lemma next_todos_ids_known (m : Mutation) (ts : list Todo) (P : jsstring -> Prop) :
  (forall t, In t ts -> P (id t)) ->
  match m with
  | Add _ now => P (JsString.of_number now)
  | Reorder data => forall t, In t data -> In t ts
  | _ => True
  end ->
  forall t, In t (next_todos m ts) -> P (id t).
Proof.
  intros H Hm t Ht.
  destruct m as [text' now | id' | id' | data | ]; simpl in *.
  - destruct (JsString.truthy (JsString.trim text')); [| apply H, Ht].
    apply in_app_iff in Ht as [Ht | [<- | []]]; [apply H, Ht | exact Hm].
  - apply in_map_iff in Ht as (u & <- & Hu).
    destruct (bool_decide (id u = id')); apply (H u Hu).
  - apply filter_In in Ht as [Ht _]. apply H, Ht.
  - apply H, Hm, Ht.
  - apply filter_In in Ht as [Ht _]. apply H, Ht.
Qed.

Lemma drag_payload_NoDup (a : AppState (list Todo)) (data : list Todo) :
  NoDup (List.map id (todos a)) ->
  Permutation data (filteredTodos a) ->
  NoDup (List.map id data).
Proof.
  intros Hnd Hp.
  rewrite (Permutation_map id Hp). unfold filteredTodos.
  apply NoDup_map_id_filter, Hnd.
Qed.

Lemma play_ids_unique (l : list Intent) :
  forall (w : World (list Todo)) (seen : list N),
    NoDup (seen ++ clock_readings l) ->
    NoDup (List.map id (todos (app w))) ->
    (forall t, In t (todos (app w)) ->
               exists n, In n seen /\ id t = JsString.of_number n) ->
    drags_from_view l w ->
    NoDup (List.map id (todos (app (play l w)))).
Proof.
  induction l as [| i l IH]; intros w seen Hclock Hnd Hseen Hd; simpl;
    [exact Hnd |].
  destruct Hd as [Hi Hl].
  destruct i as [m | f | | ].
  - destruct m as [text' now | id' | id' | data | ].
    + (* add *)
      simpl in Hclock.
      apply (IH _ (seen ++ [now])); [| | | exact Hl].
      * rewrite <- app_assoc. exact Hclock.
      * rewrite dispatch_todos.
        destruct (writable (storage w)); [| exact Hnd].
        apply next_todos_NoDup; [exact Hnd |]. simpl.
        intros Hin. apply in_map_iff in Hin as (t & Ht & Hin).
        destruct (Hseen t Hin) as (n & Hn & En).
        rewrite En in Ht. apply of_number_inj in Ht. subst n.
        apply NoDup_app in Hclock as (_ & Hdisj & _).
        apply (Hdisj now); [apply list_elem_of_In, Hn | constructor].
      * rewrite dispatch_todos.
        destruct (writable (storage w)).
        -- apply (next_todos_ids_known _ _
                    (fun x => exists n, In n (seen ++ [now])
                                        /\ x = JsString.of_number n)).
           ++ intros t Ht. destruct (Hseen t Ht) as (n & Hn & En).
              exists n. split; [apply in_app_iff; left; exact Hn | exact En].
           ++ exists now. split; [apply in_app_iff; right; left |]; reflexivity.
        -- intros t Ht. destruct (Hseen t Ht) as (n & Hn & En).
           exists n. split; [apply in_app_iff; left; exact Hn | exact En].
    + apply (IH _ seen); [exact Hclock | | | exact Hl];
        rewrite dispatch_todos; destruct (writable (storage w));
        try assumption.
      * apply next_todos_NoDup; [exact Hnd | exact I].
      * apply (next_todos_ids_known _ _
                 (fun x => exists n, In n seen /\ x = JsString.of_number n));
          [exact Hseen | exact I].
    + apply (IH _ seen); [exact Hclock | | | exact Hl];
        rewrite dispatch_todos; destruct (writable (storage w));
        try assumption.
      * apply next_todos_NoDup; [exact Hnd | exact I].
      * apply (next_todos_ids_known _ _
                 (fun x => exists n, In n seen /\ x = JsString.of_number n));
          [exact Hseen | exact I].
    + apply (IH _ seen); [exact Hclock | | | exact Hl];
        rewrite dispatch_todos; destruct (writable (storage w));
        try assumption.
      * apply next_todos_NoDup; [exact Hnd |]. simpl.
        apply (drag_payload_NoDup (app w)); assumption.
      * apply (next_todos_ids_known _ _
                 (fun x => exists n, In n seen /\ x = JsString.of_number n));
          [exact Hseen |].
        intros t Ht. apply (filteredTodos_In (app w)).
        apply (Permutation_in _ Hi Ht).
    + apply (IH _ seen); [exact Hclock | | | exact Hl];
        rewrite dispatch_todos; destruct (writable (storage w));
        try assumption.
      * apply next_todos_NoDup; [exact Hnd | exact I].
      * apply (next_todos_ids_known _ _
                 (fun x => exists n, In n seen /\ x = JsString.of_number n));
          [exact Hseen | exact I].
  - apply (IH _ seen); [exact Hclock | | | exact Hl];
      rewrite dispatch_todos; assumption.
  - apply (IH _ seen); [exact Hclock | | | exact Hl];
      rewrite dispatch_todos; assumption.
  - apply (IH _ seen); [exact Hclock | | | exact Hl];
      rewrite dispatch_todos; assumption.
Qed.

(** X14.  Ids are unique as long as the clock does not repeat: in a session
    that starts with the empty list, in which no two adds read the same
    value of [Date.now()] and every drag hands back the rows it was
    given, no two tasks ever share an id, whether the writes succeed or
    not. *)
Theorem ids_unique_under_distinct_clock (l : list Intent) (s : AsyncStorage) :
  NoDup (clock_readings l) ->
  drags_from_view l (mounted s) ->
  NoDup (List.map id (todos (app (play l (mounted s))))).
Proof.
  intros Hclock Hd.
  apply (play_ids_unique l (mounted s) []); simpl.
  - exact Hclock.
  - constructor.
  - intros t [].
  - exact Hd.
Qed.

Lemma ids_unique_under_distinct_clock_witness :
  NoDup (List.map id
           (todos (app (play [Mutate (Add (js "a") 7); Mutate (Add (js "b") 8);
                              SelectFilter Filter.active;
                              Mutate (Reorder [mkTodo (js "8") (js "b") false;
                                               mkTodo (js "7") (js "a") false]);
                              Mutate (ToggleComplete (js "7"))]
                          (mounted Sample.healthy))))).
Proof.
  apply (ids_unique_under_distinct_clock _ Sample.healthy).
  - vm_compute. apply NoDup_cons. split.
    + intros H. apply list_elem_of_In in H. destruct H as [H | []].
      discriminate H.
    + apply NoDup_singleton.
  - simpl. repeat split. vm_compute. apply perm_swap.
Defined.

(** ** How the handlers compose *)

Lemma flip_flip (t : Todo) : flip (flip t) = t.
Proof. destruct t as [i x c]. unfold flip. simpl. rewrite negb_involutive. reflexivity. Qed.

Lemma map_toggle_twice (id' : jsstring) (ts : list Todo) :
  List.map (fun t => if bool_decide (id t = id') then flip t else t)
    (List.map (fun t => if bool_decide (id t = id') then flip t else t) ts)
  = ts.
Proof.
  induction ts as [| t ts IH]; simpl; [reflexivity |]. rewrite IH.
  destruct (bool_decide (id t = id')) eqn:E.
  - change (id (flip t)) with (id t). rewrite E, flip_flip. reflexivity.
  - rewrite E. reflexivity.
Qed.

Lemma toggleComplete_of_current (id' : jsstring) (w : World (list Todo)) :
  toggleComplete id' w = toggleComplete_of (todos (app w)) id' w.
Proof. reflexivity. Qed.

Lemma toggleComplete_of_todos
  (rendered : list Todo) (id' : jsstring) (w : World (list Todo)) :
  writable (storage w) = true ->
  todos (app (exec (toggleComplete_of rendered id') w))
  = List.map (fun t => if bool_decide (id t = id') then flip t else t) rendered
  /\ writable (storage (exec (toggleComplete_of rendered id') w)) = true.
Proof.
  intros Hw. unfold toggleComplete_of, exec.
  rewrite saveTodos_eq, Hw. split; reflexivity.
Qed.

(** X15.  Ticking a task twice, over a store that takes the writes.
    When the second press is handled by the component as it re-rendered
    after the first toggle was committed, the list is back as it was.
    When both presses are handled by the same render (the second comes
    before the first write resolved), both handlers close over the same
    list and the task ends up toggled once, not restored. *)
Theorem toggleComplete_twice (id' : jsstring) (w : World (list Todo)) :
  writable (storage w) = true ->
  todos (app (exec (toggleComplete id') (exec (toggleComplete id') w)))
  = todos (app w)
  /\ todos (app (exec (toggleComplete_of (todos (app w)) id')
                   (exec (toggleComplete_of (todos (app w)) id') w)))
     = List.map (fun t => if bool_decide (id t = id') then flip t else t)
         (todos (app w)).
Proof.
  intros Hw. split.
  - rewrite toggleComplete_todos.
    change (exec (toggleComplete id') w)
      with (exec (mutate (ToggleComplete id')) w).
    rewrite mutate_writable, Hw, mutate_todos, Hw. apply map_toggle_twice.
  - destruct (toggleComplete_of_todos (todos (app w)) id' w Hw) as [_ Hw'].
    apply (toggleComplete_of_todos (todos (app w)) id' _ Hw').
Qed.

Lemma toggleComplete_twice_witness :
  writable (storage (with_todos [Sample.buy; Sample.call] Filter.all
                       Sample.healthy)) = true
  /\ todos (app (exec (toggleComplete (js "2"))
                   (exec (toggleComplete (js "2"))
                      (with_todos [Sample.buy; Sample.call] Filter.all
                         Sample.healthy))))
     = [Sample.buy; Sample.call]
  /\ todos (app (exec (toggleComplete_of [Sample.buy; Sample.call] (js "2"))
                   (exec (toggleComplete_of [Sample.buy; Sample.call] (js "2"))
                      (with_todos [Sample.buy; Sample.call] Filter.all
                         Sample.healthy))))
     = [Sample.buy; flip Sample.call].
Proof.
  split; [reflexivity |].
  apply (toggleComplete_twice (js "2")
           (with_todos [Sample.buy; Sample.call] Filter.all Sample.healthy)).
  reflexivity.
Defined.

(** X16.  Deleting the task that was just added puts the list back as it was,
    provided the clock reading of the add was not already the id of a
    task (over a store that takes the writes). *)
Theorem add_then_delete_restores
  (text' : jsstring) (now : N) (w : World (list Todo)) :
  writable (storage w) = true ->
  (forall t, In t (todos (app w)) -> id t <> JsString.of_number now) ->
  todos (app (exec (deleteTodo (JsString.of_number now))
                (exec (add text' now) w)))
  = todos (app w).
Proof.
  intros Hw Hfresh. rewrite deleteTodo_todos.
  change (exec (add text' now) w) with (exec (mutate (Add text' now)) w).
  rewrite mutate_writable, Hw, mutate_todos, Hw. simpl.
  assert (Hkeep : List.filter
                    (fun t => negb (bool_decide (id t = JsString.of_number now)))
                    (todos (app w)) = todos (app w)).
  { apply filter_all_true. intros t Ht.
    rewrite negb_true_iff, bool_decide_eq_false. apply Hfresh, Ht. }
  destruct (JsString.truthy (JsString.trim text')); [| exact Hkeep].
  rewrite List.filter_app, Hkeep. simpl.
  rewrite bool_decide_true by reflexivity. simpl. apply app_nil_r.
Qed.

Lemma add_then_delete_restores_witness :
  writable (storage (with_todos [Sample.buy] Filter.all Sample.healthy)) = true
  /\ todos (app (exec (deleteTodo (JsString.of_number 1000))
                   (exec (add (js "walk") 1000)
                      (with_todos [Sample.buy] Filter.all Sample.healthy))))
     = [Sample.buy].
Proof.
  split; [reflexivity |].
  apply (add_then_delete_restores (js "walk") 1000
           (with_todos [Sample.buy] Filter.all Sample.healthy)).
  - reflexivity.
  - intros t [<- | []]. vm_compute. discriminate.
Defined.

Lemma count_active_toggle (id' : jsstring) (ts : list Todo) (t : Todo) :
  NoDup (List.map id ts) -> In t ts -> id t = id' ->
  (count_active
     (List.map (fun u => if bool_decide (id u = id') then flip u else u) ts)
   + (if completed t then 0 else 1)
   = count_active ts + (if completed t then 1 else 0))%nat.
Proof.
  induction ts as [| x r IH]; intros Hnd Hin Hid; [destruct Hin |].
  simpl in Hnd. inversion Hnd as [| y l Hx Hr]; subst y l.
  simpl List.map. destruct (bool_decide (id x = id')) eqn:E.
  - apply bool_decide_eq_true in E.
    assert (Ht : t = x).
    { destruct Hin as [-> | Hin]; [reflexivity |].
      exfalso. apply Hx. rewrite list_elem_of_In, in_map_iff.
      exists t. split; [congruence | exact Hin]. }
    subst t.
    rewrite map_toggle_absent.
    + simpl. destruct (completed x); simpl; lia.
    + intros u Hu Eu. apply Hx. rewrite list_elem_of_In, in_map_iff.
      exists u. split; [congruence | exact Hu].
  - apply bool_decide_eq_false in E.
    destruct Hin as [-> | Hin]; [contradiction |].
    specialize (IH Hr Hin Hid). simpl.
    destruct (completed x); simpl; lia.
Qed.

(** X17.  Ticking moves the count of active tasks by one: when ids are
    unique and the write succeeds, toggling an active task lowers
    "items left" by one and toggling a completed task raises it by
    one. *)
Theorem toggleComplete_moves_count_by_one
  (t : Todo) (w : World (list Todo)) :
  writable (storage w) = true ->
  NoDup (List.map id (todos (app w))) ->
  In t (todos (app w)) ->
  (completed t = false ->
   S (activeCount (app (exec (toggleComplete (id t)) w))) = activeCount (app w))
  /\ (completed t = true ->
      activeCount (app (exec (toggleComplete (id t)) w))
      = S (activeCount (app w))).
Proof.
  intros Hw Hnd Hin. unfold activeCount.
  rewrite toggleComplete_todos, Hw, !length_filter_active.
  pose proof (count_active_toggle (id t) _ t Hnd Hin eq_refl) as H.
  split; intros Hc; rewrite Hc in H; lia.
Qed.

Lemma toggleComplete_moves_count_by_one_witness :
  S (activeCount
       (app (exec (toggleComplete (id Sample.buy))
               (with_todos [Sample.buy; Sample.call] Filter.all
                  Sample.healthy))))
  = activeCount (app (with_todos [Sample.buy; Sample.call] Filter.all
                        Sample.healthy)).
Proof.
  apply (proj1 (toggleComplete_moves_count_by_one Sample.buy
                  (with_todos [Sample.buy; Sample.call] Filter.all
                     Sample.healthy) eq_refl
                  ltac:(vm_compute; apply NoDup_cons; split;
                        [intros H; apply list_elem_of_In in H;
                         destruct H as [H | []]; discriminate H
                        | apply NoDup_singleton])
                  ltac:(left; reflexivity))).
  reflexivity.
Defined.

(** ** The views and the footer *)

Lemma filter_partition {A : Type} (p : A -> bool) (l : list A) :
  Permutation (List.filter p l ++ List.filter (fun x => negb (p x)) l) l.
Proof.
  induction l as [| x l IH]; simpl; [constructor |].
  destruct (p x); simpl.
  - apply perm_skip, IH.
  - symmetry. apply Permutation_cons_app. symmetry. exact IH.
Qed.

Lemma filter_Permutation {A : Type} (p : A -> bool) (l k : list A) :
  Permutation l k -> Permutation (List.filter p l) (List.filter p k).
Proof.
  induction 1 as [| x l k H IH | x y l | l k m H1 IH1 H2 IH2]; simpl.
  - constructor.
  - destruct (p x); [apply perm_skip |]; exact IH.
  - destruct (p x), (p y); try reflexivity. apply perm_swap.
  - etransitivity; eassumption.
Qed.

Lemma existsb_completed_count (ts : list Todo) :
  List.existsb (fun t => completed t) ts = true
  <-> (count_active ts < List.length ts)%nat.
Proof.
  induction ts as [| t ts IH]; simpl; [split; [discriminate | lia] |].
  assert (Hle : (count_active ts <= List.length ts)%nat).
  { clear. induction ts as [| u ts IH]; simpl; [lia |].
    destruct (completed u); lia. }
  destruct (completed t); simpl.
  - split; [lia | reflexivity].
  - rewrite IH. lia.
Qed.

(** X18.  The two filtered views split the list: every task is in exactly one
    of them, the active view has [activeCount] rows whatever filter is
    selected, and the footer offers "Clear Completed" exactly when the
    count of active tasks is below the number of tasks. *)
Theorem views_partition_list
  (d : bool) (ts : list Todo) (i : jsstring) (f : Filter.t) :
  Permutation
    (filteredTodos (mkApp d ts i Filter.active)
     ++ filteredTodos (mkApp d ts i Filter.completed)) ts
  /\ List.length (filteredTodos (mkApp d ts i Filter.active))
     = activeCount (mkApp d ts i f)
  /\ (List.length (filteredTodos (mkApp d ts i Filter.completed))
      + activeCount (mkApp d ts i f) = List.length ts)%nat
  /\ (hasCompleted (mkApp d ts i f) = true
      <-> (activeCount (mkApp d ts i f) < List.length ts)%nat).
Proof.
  rewrite !filteredTodos_by_filter. unfold activeCount, hasCompleted. simpl.
  pose proof (filter_partition (fun t => negb (completed t)) ts) as Hp.
  assert (Hc : List.filter (fun x => negb (negb (completed x))) ts
               = List.filter (fun t => completed t) ts).
  { clear. induction ts as [| t ts IH]; simpl; [reflexivity |].
    rewrite negb_involutive, IH. reflexivity. }
  cbv beta in Hp. rewrite Hc in Hp.
  split; [exact Hp | split; [reflexivity | split]].
  - apply Permutation_length in Hp. rewrite length_app in Hp. lia.
  - rewrite length_filter_active. apply existsb_completed_count.
Qed.

(** ** Drags *)

Lemma onDragEnd_view (data : list Todo) (w : World (list Todo)) :
  writable (storage w) = true ->
  Permutation data (filteredTodos (app w)) ->
  Permutation (todos (app (exec (onDragEnd data) w))) (filteredTodos (app w)).
Proof.
  intros Hw Hp. unfold onDragEnd. rewrite saveTodos_todos, Hw. exact Hp.
Qed.

(** X19.  A drag under the filter "all" only reorders: the list component
    hands back a permutation of the whole list, so after a successful
    write the same tasks are there, in the new order, and the count of
    active tasks is unchanged. *)
Theorem drag_in_full_view_reorders (data : list Todo) (w : World (list Todo)) :
  writable (storage w) = true ->
  filter (app w) = Filter.all ->
  Permutation data (filteredTodos (app w)) ->
  todos (app (exec (onDragEnd data) w)) = data
  /\ Permutation (todos (app (exec (onDragEnd data) w))) (todos (app w))
  /\ List.length (todos (app (exec (onDragEnd data) w)))
     = List.length (todos (app w))
  /\ activeCount (app (exec (onDragEnd data) w)) = activeCount (app w).
Proof.
  intros Hw Hf Hp.
  assert (Hall : filteredTodos (app w) = todos (app w)).
  { destruct (app w) as [d ts i f]. simpl in Hf. subst f.
    apply filteredTodos_by_filter. }
  pose proof (onDragEnd_view data w Hw Hp) as Hv. rewrite Hall in Hv.
  split; [unfold onDragEnd; rewrite saveTodos_todos, Hw; reflexivity |].
  split; [exact Hv | split].
  - apply Permutation_length, Hv.
  - unfold activeCount. apply Permutation_length, filter_Permutation, Hv.
Qed.

Lemma drag_in_full_view_reorders_witness :
  Permutation
    (todos (app (exec (onDragEnd [Sample.walk; Sample.buy; Sample.call])
                   (with_todos [Sample.buy; Sample.call; Sample.walk]
                      Filter.all Sample.healthy))))
    [Sample.buy; Sample.call; Sample.walk].
Proof.
  apply (proj1 (proj2 (drag_in_full_view_reorders
           [Sample.walk; Sample.buy; Sample.call]
           (with_todos [Sample.buy; Sample.call; Sample.walk]
              Filter.all Sample.healthy)
           eq_refl eq_refl
           (Permutation_cons_append [Sample.buy; Sample.call]
              Sample.walk)))).
Defined.

(** X20.  A drag under the filter "active" or "completed" drops what is
    hidden: the list component hands back the rows it shows, and after
    a successful write the task list consists of exactly those rows.
    Under "active" every completed task is gone and the length of the
    list is the former count of active tasks; under "completed" no
    active task is left. *)
Theorem drag_in_filtered_view_drops_hidden
  (data : list Todo) (w : World (list Todo)) :
  writable (storage w) = true ->
  Permutation data (filteredTodos (app w)) ->
  (forall t, In t (todos (app (exec (onDragEnd data) w)))
             <-> In t (filteredTodos (app w)))
  /\ (filter (app w) = Filter.active ->
      hasCompleted (app (exec (onDragEnd data) w)) = false
      /\ List.length (todos (app (exec (onDragEnd data) w)))
         = activeCount (app w))
  /\ (filter (app w) = Filter.completed ->
      activeCount (app (exec (onDragEnd data) w)) = O).
Proof.
  intros Hw Hp. pose proof (onDragEnd_view data w Hw Hp) as Hv.
  split; [| split].
  - intros t. split; intros H.
    + apply (Permutation_in _ Hv H).
    + apply (Permutation_in _ (Permutation_sym Hv) H).
  - intros Hf. destruct (app w) as [d ts i f] eqn:Ea. simpl in Hf. subst f.
    rewrite filteredTodos_by_filter in Hv. split.
    + destruct (hasCompleted (app (exec (onDragEnd data) w))) eqn:E;
        [| reflexivity].
      unfold hasCompleted in E. apply existsb_exists in E as (t & Ht & Hc).
      apply (Permutation_in _ Hv) in Ht. apply filter_In in Ht as [_ Ht].
      rewrite Hc in Ht. discriminate Ht.
    + apply Permutation_length in Hv. rewrite Hv. reflexivity.
  - intros Hf. destruct (app w) as [d ts i f] eqn:Ea. simpl in Hf. subst f.
    rewrite filteredTodos_by_filter in Hv.
    unfold activeCount.
    rewrite (Permutation_length (filter_Permutation _ _ _ Hv)).
    clear. induction ts as [| t ts IH]; simpl; [reflexivity |].
    destruct (completed t) eqn:E; simpl; [rewrite E; simpl |]; exact IH.
Qed.

Lemma drag_in_filtered_view_drops_hidden_witness :
  hasCompleted
    (app (exec (onDragEnd [Sample.walk; Sample.buy])
            (with_todos [Sample.buy; Sample.call; Sample.walk]
               Filter.active Sample.healthy))) = false
  /\ List.length
       (todos (app (exec (onDragEnd [Sample.walk; Sample.buy])
                      (with_todos [Sample.buy; Sample.call; Sample.walk]
                         Filter.active Sample.healthy))))
     = 2%nat.
Proof.
  apply (proj1 (proj2 (drag_in_filtered_view_drops_hidden
           [Sample.walk; Sample.buy]
           (with_todos [Sample.buy; Sample.call; Sample.walk]
              Filter.active Sample.healthy)
           eq_refl (perm_swap Sample.buy Sample.walk [])))).
  reflexivity.
Defined.

(** ** The stored text *)

(** X21.  Two task lists with the same stored text are the same list: the
    text under "@todos" determines every task, field by field. *)
Theorem JSON_stringify_injective (ts1 ts2 : list Todo) :
  JSON_stringify ts1 = JSON_stringify ts2 -> ts1 = ts2.
Proof.
  intros H.
  assert (E : Some ts1 = Some ts2).
  { rewrite <- (todos_of_to_json ts1), <- (todos_of_to_json ts2).
    f_equal.
    assert (E' : Some (todos_to_json ts1) = Some (todos_to_json ts2)).
    { rewrite <- !parse_stringify, H. reflexivity. }
    congruence. }
  injection E as E. exact E.
Qed.

Lemma JSON_stringify_injective_witness :
  JSON_stringify [Sample.buy; Sample.call]
  = JSON_stringify ([Sample.buy] ++ [Sample.call])
  /\ [Sample.buy; Sample.call] = [Sample.buy] ++ [Sample.call].
Proof.
  split; [reflexivity |].
  apply (JSON_stringify_injective [Sample.buy; Sample.call]
           ([Sample.buy] ++ [Sample.call])).
  reflexivity.
Defined.

(** ** The buttons of a row *)

Lemma NoDup_map_id_inj (ts : list Todo) (a b : Todo) :
  NoDup (List.map id ts) -> In a ts -> In b ts -> id a = id b -> a = b.
Proof.
  induction ts as [| x r IH]; intros Hnd Ha Hb E; [destruct Ha |].
  simpl in Hnd. inversion Hnd as [| y l Hx Hr]; subst y l.
  assert (Hout : forall u, In u r -> id u <> id x).
  { intros u Hu Eu. apply Hx. rewrite list_elem_of_In, in_map_iff.
    exists u. split; [exact Eu | exact Hu]. }
  destruct Ha as [<- | Ha], Hb as [<- | Hb].
  - reflexivity.
  - exfalso. apply (Hout b Hb). symmetry. exact E.
  - exfalso. apply (Hout a Ha). exact E.
  - apply IH; assumption.
Qed.

Lemma filter_active_after_toggle (id' : jsstring) (ts : list Todo) :
  (forall t, In t ts -> id t = id' -> completed t = false) ->
  List.filter (fun t => negb (completed t))
    (List.map (fun t => if bool_decide (id t = id') then flip t else t) ts)
  = List.filter (fun t => negb (bool_decide (id t = id')))
      (List.filter (fun t => negb (completed t)) ts).
Proof.
  induction ts as [| x r IH]; intros H; [reflexivity |].
  simpl. rewrite IH by (intros t Ht; apply H; right; exact Ht).
  destruct (bool_decide (id x = id')) eqn:E.
  - pose proof (H x (or_introl eq_refl) (proj1 (bool_decide_eq_true _) E))
      as Hc.
    simpl. rewrite Hc. simpl. rewrite E. reflexivity.
  - destruct (completed x); simpl; [reflexivity |]. rewrite E. reflexivity.
Qed.

Lemma length_filter_other_ids (ts : list Todo) (item : Todo) :
  NoDup (List.map id ts) -> In item ts ->
  S (List.length
       (List.filter (fun t => negb (bool_decide (id t = id item))) ts))
  = List.length ts.
Proof.
  induction ts as [| x r IH]; intros Hnd Hin; [destruct Hin |].
  simpl in Hnd. inversion Hnd as [| y l Hx Hr]; subst y l. simpl.
  destruct (bool_decide (id x = id item)) eqn:E; simpl.
  - apply bool_decide_eq_true in E. f_equal. f_equal.
    apply filter_all_true. intros u Hu.
    rewrite negb_true_iff, bool_decide_eq_false. intros Eu.
    apply Hx. rewrite list_elem_of_In, in_map_iff.
    exists u. split; [congruence | exact Hu].
  - apply bool_decide_eq_false in E.
    destruct Hin as [-> | Hin]; [contradiction E; reflexivity |].
    f_equal. apply IH; assumption.
Qed.

(** X22.  Ticking a row under the filter "active" takes it out of the view:
    with unique ids and a successful write, the view after pressing the
    checkbox of a displayed row is the former view without that row,
    the other rows in their order, and it is one row shorter. *)
Theorem checkbox_hides_row_under_active (item : Todo) (w : World (list Todo)) :
  writable (storage w) = true ->
  filter (app w) = Filter.active ->
  NoDup (List.map id (todos (app w))) ->
  In item (filteredTodos (app w)) ->
  filteredTodos (app (exec (onPressCheckbox item) w))
  = List.filter (fun t => negb (bool_decide (id t = id item)))
      (filteredTodos (app w))
  /\ ~ In item (filteredTodos (app (exec (onPressCheckbox item) w)))
  /\ S (List.length (filteredTodos (app (exec (onPressCheckbox item) w))))
     = List.length (filteredTodos (app w)).
Proof.
  intros Hw Hf Hnd Hin.
  assert (Hview : filteredTodos (app (exec (onPressCheckbox item) w))
                  = List.filter (fun t => negb (bool_decide (id t = id item)))
                      (filteredTodos (app w))).
  { change (exec (onPressCheckbox item) w)
      with (exec (mutate (ToggleComplete (id item))) w).
    unfold exec. rewrite mutate_world, Hw. simpl.
    destruct (app w) as [d ts i f] eqn:Ea. simpl in *. subst f.
    rewrite !filteredTodos_by_filter.
    apply filter_active_after_toggle.
    rewrite filteredTodos_by_filter in Hin.
    apply filter_In in Hin as [Hin Hact].
    intros t Ht Et.
    rewrite (NoDup_map_id_inj ts t item Hnd Ht Hin Et).
    apply negb_true_iff, Hact. }
  split; [exact Hview | split].
  - rewrite Hview. intros H. apply filter_In in H as [_ H].
    rewrite bool_decide_true in H by reflexivity. discriminate H.
  - rewrite Hview. apply length_filter_other_ids; [| exact Hin].
    unfold filteredTodos. apply NoDup_map_id_filter, Hnd.
Qed.

Lemma checkbox_hides_row_under_active_witness :
  filteredTodos
    (app (exec (onPressCheckbox Sample.buy)
            (with_todos [Sample.buy; Sample.call; Sample.walk]
               Filter.active Sample.healthy)))
  = List.filter (fun t => negb (bool_decide (id t = id Sample.buy)))
      (filteredTodos
         (app (with_todos [Sample.buy; Sample.call; Sample.walk]
                 Filter.active Sample.healthy))).
Proof.
  apply (checkbox_hides_row_under_active Sample.buy
           (with_todos [Sample.buy; Sample.call; Sample.walk]
              Filter.active Sample.healthy)).
  - reflexivity.
  - reflexivity.
  - vm_compute. repeat (apply NoDup_cons; split);
      try apply NoDup_nil_2;
      intros H; apply list_elem_of_In in H; vm_compute in H;
      repeat (destruct H as [H | H]; [discriminate H |]); exact H.
  - left. reflexivity.
Defined.

Lemma filter_comm {A : Type} (p q : A -> bool) (l : list A) :
  List.filter p (List.filter q l) = List.filter q (List.filter p l).
Proof.
  induction l as [| x l IH]; simpl; [reflexivity |].
  destruct (p x) eqn:Ep, (q x) eqn:Eq; simpl; rewrite ?Ep, ?Eq, IH;
    reflexivity.
Qed.

(** X23.  Pressing the delete button of a displayed row removes that row and
    nothing else: with unique ids and a successful write, the list and
    the view are the former ones without the row, both one shorter, and
    the other rows keep their order. *)
Theorem delete_button_removes_one_row (item : Todo) (w : World (list Todo)) :
  writable (storage w) = true ->
  NoDup (List.map id (todos (app w))) ->
  In item (filteredTodos (app w)) ->
  S (List.length (todos (app (exec (onPressDelete item) w))))
  = List.length (todos (app w))
  /\ S (List.length (filteredTodos (app (exec (onPressDelete item) w))))
     = List.length (filteredTodos (app w))
  /\ ~ In item (todos (app (exec (onPressDelete item) w)))
  /\ filteredTodos (app (exec (onPressDelete item) w))
     = List.filter (fun t => negb (bool_decide (id t = id item)))
         (filteredTodos (app w))
  /\ sublist (todos (app (exec (onPressDelete item) w))) (todos (app w)).
Proof.
  intros Hw Hnd Hin.
  assert (Happ : app (exec (onPressDelete item) w)
                 = mkApp (isDark (app w))
                     (List.filter
                        (fun t => negb (bool_decide (id t = id item)))
                        (todos (app w)))
                     (input (app w)) (filter (app w))).
  { change (exec (onPressDelete item) w)
      with (exec (mutate (Delete (id item))) w).
    unfold exec. rewrite mutate_world, Hw. reflexivity. }
  assert (Hview : filteredTodos (app (exec (onPressDelete item) w))
                  = List.filter (fun t => negb (bool_decide (id t = id item)))
                      (filteredTodos (app w))).
  { rewrite Happ. unfold filteredTodos. simpl. apply filter_comm. }
  rewrite Hview, Happ. simpl.
  split; [| split; [| split; [| split]]].
  - apply length_filter_other_ids;
      [exact Hnd | apply (filteredTodos_In (app w)), Hin].
  - apply length_filter_other_ids; [| exact Hin].
    unfold filteredTodos. apply NoDup_map_id_filter, Hnd.
  - intros H. apply filter_In in H as [_ H].
    rewrite bool_decide_true in H by reflexivity. discriminate H.
  - reflexivity.
  - apply filter_sublist.
Qed.

Lemma delete_button_removes_one_row_witness :
  S (List.length
       (todos (app (exec (onPressDelete Sample.call)
                      (with_todos [Sample.buy; Sample.call; Sample.walk]
                         Filter.completed Sample.healthy)))))
  = 3%nat.
Proof.
  apply (proj1 (delete_button_removes_one_row Sample.call
                  (with_todos [Sample.buy; Sample.call; Sample.walk]
                     Filter.completed Sample.healthy)
                  eq_refl
                  ltac:(vm_compute; repeat (apply NoDup_cons; split);
                        try apply NoDup_nil_2;
                        intros H; apply list_elem_of_In in H; vm_compute in H;
                        repeat (destruct H as [H | H]; [discriminate H |]);
                        exact H)
                  ltac:(left; reflexivity))).
Defined.
